(** * A shallow embedding of [src/result.py]

    The listing scraper turns a parsed rental page into a flat record.
    Python [str] values are modelled as lists of Unicode code points
    ([ustr]); string literals of the source are written as UTF-8 Rocq
    strings and decoded with [u].  The HTML tree is the tree that
    BeautifulSoup builds (the parser itself is an external collaborator);
    regular expressions of the source are translated one by one into the
    matcher they denote, with Python's [re] semantics (leftmost match,
    greedy and lazy quantifiers, backtracking where it matters). *)

From Stdlib Require Import PeanoNat NArith String Ascii List Bool Lia.
Import ListNotations.
Open Scope bool_scope.
Set Warnings "-register-all".


(** ** Python strings *)

Definition ustr := list N.

(** UTF-8 decoding of a Rocq string literal into code points. *)
Fixpoint utf8_decode (l : list N) : list N :=
  match l with
  | [] => []
  | b0 :: r0 =>
      if (b0 <? 128)%N then b0 :: utf8_decode r0
      else if (b0 <? 224)%N then
        match r0 with
        | b1 :: r1 => ((b0 - 192) * 64 + (b1 - 128))%N :: utf8_decode r1
        | [] => []
        end
      else if (b0 <? 240)%N then
        match r0 with
        | b1 :: b2 :: r2 =>
            ((b0 - 224) * 4096 + (b1 - 128) * 64 + (b2 - 128))%N :: utf8_decode r2
        | _ => []
        end
      else
        match r0 with
        | b1 :: b2 :: b3 :: r3 =>
            ((b0 - 240) * 262144 + (b1 - 128) * 4096 + (b2 - 128) * 64
             + (b3 - 128))%N :: utf8_decode r3
        | _ => []
        end
  end.

Fixpoint bytes_of_string (s : string) : list N :=
  match s with
  | EmptyString => []
  | String c r => N_of_ascii c :: bytes_of_string r
  end.

Definition u (s : string) : ustr := utf8_decode (bytes_of_string s).

Definition NL : N := 10%N.

Definition in_ranges (c : N) (rs : list (N * N)) : bool :=
  existsb (fun '(a, b) => (a <=? c)%N && (c <=? b)%N) rs.

(** Code points matched by [\d] in a [str] pattern (Unicode category Nd), as ranges. *)
Definition decimal_ranges : list (N * N) := [
  (48,57); (1632,1641); (1776,1785); (1984,1993); (2406,2415); (2534,2543);
  (2662,2671); (2790,2799); (2918,2927); (3046,3055); (3174,3183);
  (3302,3311); (3430,3439); (3558,3567); (3664,3673); (3792,3801);
  (3872,3881); (4160,4169); (4240,4249); (6112,6121); (6160,6169);
  (6470,6479); (6608,6617); (6784,6793); (6800,6809); (6992,7001);
  (7088,7097); (7232,7241); (7248,7257); (42528,42537); (43216,43225);
  (43264,43273); (43472,43481); (43504,43513); (43600,43609); (44016,44025);
  (65296,65305); (66720,66729); (68912,68921); (69734,69743); (69872,69881);
  (69942,69951); (70096,70105); (70384,70393); (70736,70745); (70864,70873);
  (71248,71257); (71360,71369); (71472,71481); (71904,71913); (72016,72025);
  (72784,72793); (73040,73049); (73120,73129); (92768,92777); (92864,92873);
  (93008,93017); (120782,120831); (123200,123209); (123632,123641);
  (125264,125273); (130032,130041)
]%N.

(** Code points matched by [\s] in a [str] pattern, and stripped by [str.strip()]. *)
Definition space_ranges : list (N * N) := [
  (9,13); (28,32); (133,133); (160,160); (5760,5760); (8192,8202);
  (8232,8233); (8239,8239); (8287,8287); (12288,12288)
]%N.

(** Code points matched by [\w] in a [str] pattern ([str.isalnum()] or underscore). *)
Definition word_ranges : list (N * N) := [
  (48,57); (65,90); (95,95); (97,122); (170,170); (178,179); (181,181);
  (185,186); (188,190); (192,214); (216,246); (248,705); (710,721);
  (736,740); (748,748); (750,750); (880,884); (886,887); (890,893);
  (895,895); (902,902); (904,906); (908,908); (910,929); (931,1013);
  (1015,1153); (1162,1327); (1329,1366); (1369,1369); (1376,1416);
  (1488,1514); (1519,1522); (1568,1610); (1632,1641); (1646,1647);
  (1649,1747); (1749,1749); (1765,1766); (1774,1788); (1791,1791);
  (1808,1808); (1810,1839); (1869,1957); (1969,1969); (1984,2026);
  (2036,2037); (2042,2042); (2048,2069); (2074,2074); (2084,2084);
  (2088,2088); (2112,2136); (2144,2154); (2160,2183); (2185,2190);
  (2208,2249); (2308,2361); (2365,2365); (2384,2384); (2392,2401);
  (2406,2415); (2417,2432); (2437,2444); (2447,2448); (2451,2472);
  (2474,2480); (2482,2482); (2486,2489); (2493,2493); (2510,2510);
  (2524,2525); (2527,2529); (2534,2545); (2548,2553); (2556,2556);
  (2565,2570); (2575,2576); (2579,2600); (2602,2608); (2610,2611);
  (2613,2614); (2616,2617); (2649,2652); (2654,2654); (2662,2671);
  (2674,2676); (2693,2701); (2703,2705); (2707,2728); (2730,2736);
  (2738,2739); (2741,2745); (2749,2749); (2768,2768); (2784,2785);
  (2790,2799); (2809,2809); (2821,2828); (2831,2832); (2835,2856);
  (2858,2864); (2866,2867); (2869,2873); (2877,2877); (2908,2909);
  (2911,2913); (2918,2927); (2929,2935); (2947,2947); (2949,2954);
  (2958,2960); (2962,2965); (2969,2970); (2972,2972); (2974,2975);
  (2979,2980); (2984,2986); (2990,3001); (3024,3024); (3046,3058);
  (3077,3084); (3086,3088); (3090,3112); (3114,3129); (3133,3133);
  (3160,3162); (3165,3165); (3168,3169); (3174,3183); (3192,3198);
  (3200,3200); (3205,3212); (3214,3216); (3218,3240); (3242,3251);
  (3253,3257); (3261,3261); (3293,3294); (3296,3297); (3302,3311);
  (3313,3314); (3332,3340); (3342,3344); (3346,3386); (3389,3389);
  (3406,3406); (3412,3414); (3416,3425); (3430,3448); (3450,3455);
  (3461,3478); (3482,3505); (3507,3515); (3517,3517); (3520,3526);
  (3558,3567); (3585,3632); (3634,3635); (3648,3654); (3664,3673);
  (3713,3714); (3716,3716); (3718,3722); (3724,3747); (3749,3749);
  (3751,3760); (3762,3763); (3773,3773); (3776,3780); (3782,3782);
  (3792,3801); (3804,3807); (3840,3840); (3872,3891); (3904,3911);
  (3913,3948); (3976,3980); (4096,4138); (4159,4169); (4176,4181);
  (4186,4189); (4193,4193); (4197,4198); (4206,4208); (4213,4225);
  (4238,4238); (4240,4249); (4256,4293); (4295,4295); (4301,4301);
  (4304,4346); (4348,4680); (4682,4685); (4688,4694); (4696,4696);
  (4698,4701); (4704,4744); (4746,4749); (4752,4784); (4786,4789);
  (4792,4798); (4800,4800); (4802,4805); (4808,4822); (4824,4880);
  (4882,4885); (4888,4954); (4969,4988); (4992,5007); (5024,5109);
  (5112,5117); (5121,5740); (5743,5759); (5761,5786); (5792,5866);
  (5870,5880); (5888,5905); (5919,5937); (5952,5969); (5984,5996);
  (5998,6000); (6016,6067); (6103,6103); (6108,6108); (6112,6121);
  (6128,6137); (6160,6169); (6176,6264); (6272,6276); (6279,6312);
  (6314,6314); (6320,6389); (6400,6430); (6470,6509); (6512,6516);
  (6528,6571); (6576,6601); (6608,6618); (6656,6678); (6688,6740);
  (6784,6793); (6800,6809); (6823,6823); (6917,6963); (6981,6988);
  (6992,7001); (7043,7072); (7086,7141); (7168,7203); (7232,7241);
  (7245,7293); (7296,7304); (7312,7354); (7357,7359); (7401,7404);
  (7406,7411); (7413,7414); (7418,7418); (7424,7615); (7680,7957);
  (7960,7965); (7968,8005); (8008,8013); (8016,8023); (8025,8025);
  (8027,8027); (8029,8029); (8031,8061); (8064,8116); (8118,8124);
  (8126,8126); (8130,8132); (8134,8140); (8144,8147); (8150,8155);
  (8160,8172); (8178,8180); (8182,8188); (8304,8305); (8308,8313);
  (8319,8329); (8336,8348); (8450,8450); (8455,8455); (8458,8467);
  (8469,8469); (8473,8477); (8484,8484); (8486,8486); (8488,8488);
  (8490,8493); (8495,8505); (8508,8511); (8517,8521); (8526,8526);
  (8528,8585); (9312,9371); (9450,9471); (10102,10131); (11264,11492);
  (11499,11502); (11506,11507); (11517,11517); (11520,11557); (11559,11559);
  (11565,11565); (11568,11623); (11631,11631); (11648,11670); (11680,11686);
  (11688,11694); (11696,11702); (11704,11710); (11712,11718); (11720,11726);
  (11728,11734); (11736,11742); (11823,11823); (12293,12295); (12321,12329);
  (12337,12341); (12344,12348); (12353,12438); (12445,12447); (12449,12538);
  (12540,12543); (12549,12591); (12593,12686); (12690,12693); (12704,12735);
  (12784,12799); (12832,12841); (12872,12879); (12881,12895); (12928,12937);
  (12977,12991); (13312,19903); (19968,42124); (42192,42237); (42240,42508);
  (42512,42539); (42560,42606); (42623,42653); (42656,42735); (42775,42783);
  (42786,42888); (42891,42954); (42960,42961); (42963,42963); (42965,42969);
  (42994,43009); (43011,43013); (43015,43018); (43020,43042); (43056,43061);
  (43072,43123); (43138,43187); (43216,43225); (43250,43255); (43259,43259);
  (43261,43262); (43264,43301); (43312,43334); (43360,43388); (43396,43442);
  (43471,43481); (43488,43492); (43494,43518); (43520,43560); (43584,43586);
  (43588,43595); (43600,43609); (43616,43638); (43642,43642); (43646,43695);
  (43697,43697); (43701,43702); (43705,43709); (43712,43712); (43714,43714);
  (43739,43741); (43744,43754); (43762,43764); (43777,43782); (43785,43790);
  (43793,43798); (43808,43814); (43816,43822); (43824,43866); (43868,43881);
  (43888,44002); (44016,44025); (44032,55203); (55216,55238); (55243,55291);
  (63744,64109); (64112,64217); (64256,64262); (64275,64279); (64285,64285);
  (64287,64296); (64298,64310); (64312,64316); (64318,64318); (64320,64321);
  (64323,64324); (64326,64433); (64467,64829); (64848,64911); (64914,64967);
  (65008,65019); (65136,65140); (65142,65276); (65296,65305); (65313,65338);
  (65345,65370); (65382,65470); (65474,65479); (65482,65487); (65490,65495);
  (65498,65500); (65536,65547); (65549,65574); (65576,65594); (65596,65597);
  (65599,65613); (65616,65629); (65664,65786); (65799,65843); (65856,65912);
  (65930,65931); (66176,66204); (66208,66256); (66273,66299); (66304,66339);
  (66349,66378); (66384,66421); (66432,66461); (66464,66499); (66504,66511);
  (66513,66517); (66560,66717); (66720,66729); (66736,66771); (66776,66811);
  (66816,66855); (66864,66915); (66928,66938); (66940,66954); (66956,66962);
  (66964,66965); (66967,66977); (66979,66993); (66995,67001); (67003,67004);
  (67072,67382); (67392,67413); (67424,67431); (67456,67461); (67463,67504);
  (67506,67514); (67584,67589); (67592,67592); (67594,67637); (67639,67640);
  (67644,67644); (67647,67669); (67672,67702); (67705,67742); (67751,67759);
  (67808,67826); (67828,67829); (67835,67867); (67872,67897); (67968,68023);
  (68028,68047); (68050,68096); (68112,68115); (68117,68119); (68121,68149);
  (68160,68168); (68192,68222); (68224,68255); (68288,68295); (68297,68324);
  (68331,68335); (68352,68405); (68416,68437); (68440,68466); (68472,68497);
  (68521,68527); (68608,68680); (68736,68786); (68800,68850); (68858,68899);
  (68912,68921); (69216,69246); (69248,69289); (69296,69297); (69376,69415);
  (69424,69445); (69457,69460); (69488,69505); (69552,69579); (69600,69622);
  (69635,69687); (69714,69743); (69745,69746); (69749,69749); (69763,69807);
  (69840,69864); (69872,69881); (69891,69926); (69942,69951); (69956,69956);
  (69959,69959); (69968,70002); (70006,70006); (70019,70066); (70081,70084);
  (70096,70106); (70108,70108); (70113,70132); (70144,70161); (70163,70187);
  (70272,70278); (70280,70280); (70282,70285); (70287,70301); (70303,70312);
  (70320,70366); (70384,70393); (70405,70412); (70415,70416); (70419,70440);
  (70442,70448); (70450,70451); (70453,70457); (70461,70461); (70480,70480);
  (70493,70497); (70656,70708); (70727,70730); (70736,70745); (70751,70753);
  (70784,70831); (70852,70853); (70855,70855); (70864,70873); (71040,71086);
  (71128,71131); (71168,71215); (71236,71236); (71248,71257); (71296,71338);
  (71352,71352); (71360,71369); (71424,71450); (71472,71483); (71488,71494);
  (71680,71723); (71840,71922); (71935,71942); (71945,71945); (71948,71955);
  (71957,71958); (71960,71983); (71999,71999); (72001,72001); (72016,72025);
  (72096,72103); (72106,72144); (72161,72161); (72163,72163); (72192,72192);
  (72203,72242); (72250,72250); (72272,72272); (72284,72329); (72349,72349);
  (72368,72440); (72704,72712); (72714,72750); (72768,72768); (72784,72812);
  (72818,72847); (72960,72966); (72968,72969); (72971,73008); (73030,73030);
  (73040,73049); (73056,73061); (73063,73064); (73066,73097); (73112,73112);
  (73120,73129); (73440,73458); (73648,73648); (73664,73684); (73728,74649);
  (74752,74862); (74880,75075); (77712,77808); (77824,78894); (82944,83526);
  (92160,92728); (92736,92766); (92768,92777); (92784,92862); (92864,92873);
  (92880,92909); (92928,92975); (92992,92995); (93008,93017); (93019,93025);
  (93027,93047); (93053,93071); (93760,93846); (93952,94026); (94032,94032);
  (94099,94111); (94176,94177); (94179,94179); (94208,100343);
  (100352,101589); (101632,101640); (110576,110579); (110581,110587);
  (110589,110590); (110592,110882); (110928,110930); (110948,110951);
  (110960,111355); (113664,113770); (113776,113788); (113792,113800);
  (113808,113817); (119520,119539); (119648,119672); (119808,119892);
  (119894,119964); (119966,119967); (119970,119970); (119973,119974);
  (119977,119980); (119982,119993); (119995,119995); (119997,120003);
  (120005,120069); (120071,120074); (120077,120084); (120086,120092);
  (120094,120121); (120123,120126); (120128,120132); (120134,120134);
  (120138,120144); (120146,120485); (120488,120512); (120514,120538);
  (120540,120570); (120572,120596); (120598,120628); (120630,120654);
  (120656,120686); (120688,120712); (120714,120744); (120746,120770);
  (120772,120779); (120782,120831); (122624,122654); (123136,123180);
  (123191,123197); (123200,123209); (123214,123214); (123536,123565);
  (123584,123627); (123632,123641); (124896,124902); (124904,124907);
  (124909,124910); (124912,124926); (124928,125124); (125127,125135);
  (125184,125251); (125259,125259); (125264,125273); (126065,126123);
  (126125,126127); (126129,126132); (126209,126253); (126255,126269);
  (126464,126467); (126469,126495); (126497,126498); (126500,126500);
  (126503,126503); (126505,126514); (126516,126519); (126521,126521);
  (126523,126523); (126530,126530); (126535,126535); (126537,126537);
  (126539,126539); (126541,126543); (126545,126546); (126548,126548);
  (126551,126551); (126553,126553); (126555,126555); (126557,126557);
  (126559,126559); (126561,126562); (126564,126564); (126567,126570);
  (126572,126578); (126580,126583); (126585,126588); (126590,126590);
  (126592,126601); (126603,126619); (126625,126627); (126629,126633);
  (126635,126651); (127232,127244); (130032,130041); (131072,173791);
  (173824,177976); (177984,178205); (178208,183969); (183984,191456);
  (194560,195101); (196608,201546)
]%N.

Definition is_decimal (c : N) : bool := in_ranges c decimal_ranges.
Definition is_space (c : N) : bool := in_ranges c space_ranges.
Definition is_word (c : N) : bool := in_ranges c word_ranges.

Fixpoint ueqb (a b : ustr) : bool :=
  match a, b with
  | [], [] => true
  | x :: a', y :: b' => N.eqb x y && ueqb a' b'
  | _, _ => false
  end.

(** [s.lstrip()], [s.rstrip()], [s.strip()] (Unicode whitespace). *)
Fixpoint lstrip (s : ustr) : ustr :=
  match s with
  | c :: r => if is_space c then lstrip r else s
  | [] => []
  end.

Definition rstrip (s : ustr) : ustr := rev (lstrip (rev s)).

Definition strip (s : ustr) : ustr := rstrip (lstrip s).

(** [sep.join(xs)]. *)
Fixpoint join (sep : ustr) (xs : list ustr) : ustr :=
  match xs with
  | [] => []
  | [x] => x
  | x :: r => x ++ sep ++ join sep r
  end.

(** [s.startswith(p)], and the rest of [s] after [p]. *)
Fixpoint strip_prefix (p s : ustr) : option ustr :=
  match p, s with
  | [], _ => Some s
  | a :: p', b :: s' => if N.eqb a b then strip_prefix p' s' else None
  | _ :: _, [] => None
  end.

Definition startswith (s p : ustr) : bool :=
  match strip_prefix p s with Some _ => true | None => false end.

(** [s.split()]: maximal runs of non-whitespace. *)
Fixpoint split_ws_acc (cur : ustr) (s : ustr) : list ustr :=
  match s with
  | [] => match cur with [] => [] | _ => [rev cur] end
  | c :: r =>
      if is_space c then
        match cur with [] => split_ws_acc [] r | _ => rev cur :: split_ws_acc [] r end
      else split_ws_acc (c :: cur) r
  end.

Definition split_ws (s : ustr) : list ustr := split_ws_acc [] s.

(** [s.replace(old, new)] for a non-empty [old], left to right. *)
Fixpoint replace_fuel (fuel : nat) (old new s : ustr) : ustr :=
  match fuel with
  | O => s
  | S f =>
      match s with
      | [] => []
      | c :: r =>
          match strip_prefix old s with
          | Some rest => new ++ replace_fuel f old new rest
          | None => c :: replace_fuel f old new r
          end
      end
  end.

Definition replace (old new s : ustr) : ustr := replace_fuel (length s) old new s.

(** [str(i)] for the loop indices of the record builder ([1..16]). *)
Definition show_nat (n : nat) : ustr :=
  if Nat.ltb n 10 then [48 + N.of_nat n]%N
  else [48 + N.of_nat (Nat.div n 10); 48 + N.of_nat (Nat.modulo n 10)]%N.

Definition mem (c : N) (cs : ustr) : bool := existsb (N.eqb c) cs.

(** [re.search(pat, s)] for a pattern whose anchored matcher is [f]:
    the leftmost position, including the empty suffix, where [f] matches. *)
Fixpoint search {A : Type} (f : ustr -> option A) (s : ustr) : option A :=
  match f s with
  | Some a => Some a
  | None => match s with [] => None | _ :: r => search f r end
  end.

(** The maximal run of [\d] characters at the start of [s], and the rest. *)
Fixpoint span_digits (s : ustr) : ustr * ustr :=
  match s with
  | c :: r => if is_decimal c then let (d, t) := span_digits r in (c :: d, t) else ([], s)
  | [] => ([], [])
  end.

(** [re.findall(r"\d+", s)]: the maximal digit runs, left to right. *)
Fixpoint findall_digits_acc (cur : ustr) (s : ustr) : list ustr :=
  match s with
  | [] => match cur with [] => [] | _ => [rev cur] end
  | c :: r =>
      if is_decimal c then findall_digits_acc (c :: cur) r
      else match cur with
           | [] => findall_digits_acc [] r
           | _ => rev cur :: findall_digits_acc [] r
           end
  end.

Definition findall_digits (s : ustr) : list ustr := findall_digits_acc [] s.

(** [/rent/(\d+)/(\d+)] anchored at the start of [s].  The slash after the
    first group is not a digit, so backtracking can only end that group at
    the end of the maximal digit run; the second group is greedy and
    nothing follows it. *)
Definition rent_at (s : ustr) : option (ustr * ustr) :=
  match strip_prefix (u "/rent/") s with
  | None => None
  | Some r =>
      match span_digits r with
      | ([], _) => None
      | (d1, c :: r2) =>
          if N.eqb c 47 then
            match span_digits r2 with
            | ([], _) => None
            | (d2, _) => Some (d1, d2)
            end
          else None
      | (_, []) => None
      end
  end.

(** [extract_property_csv_id] (result.py, lines 26-33). *)
Definition extract_property_csv_id (url : ustr) : option ustr :=
  match search rent_at url with
  | Some (g1, g2) => Some (g1 ++ u "_" ++ g2)
  | None =>
      match findall_digits url with
      | [] => None
      | nums => Some (join (u "_") nums)
      end
  end.

(** [s.split(sep)] for a one-character separator (empty fields kept). *)
Fixpoint split_on_acc (sep : N) (cur : ustr) (s : ustr) : list ustr :=
  match s with
  | [] => [rev cur]
  | c :: r => if N.eqb c sep then rev cur :: split_on_acc sep [] r
              else split_on_acc sep (c :: cur) r
  end.

Definition split_on (sep : N) (s : ustr) : list ustr := split_on_acc sep [] s.

Definition numeric (s : ustr) : bool :=
  match s with [] => false | _ => forallb is_decimal s end.

(** The identifier rule in the words of the spec (section 4.3): two
    consecutive numeric path segments right after a [rent] segment, else
    every digit run joined with underscores. *)
Fixpoint rent_segments (segs : list ustr) : option (ustr * ustr) :=
  match segs with
  | r :: ((a :: b :: _) as t) =>
      if ueqb r (u "rent") && numeric a && numeric b then Some (a, b)
      else rent_segments t
  | _ => None
  end.

Definition csv_id_by_spec (url : ustr) : option ustr :=
  match rent_segments (split_on 47 url) with
  | Some (a, b) => Some (a ++ u "_" ++ b)
  | None =>
      match findall_digits url with
      | [] => None
      | nums => Some (join (u "_") nums)
      end
  end.

(** ** Address segmentation (result.py, lines 64-89) *)

(** Exactly [n] characters of [\d] at the start of [s]; the rest. *)
Fixpoint take_n_digits (n : nat) (s : ustr) : option ustr :=
  match n with
  | O => Some s
  | S k => match s with
           | c :: r => if is_decimal c then take_n_digits k r else None
           | [] => None
           end
  end.

(** [re.sub(r'^\s*\d{3}-\d{4}\s*', '', addr)].  [^] without MULTILINE
    matches only at the start, so at most one match is removed; [\s*] is
    followed by a digit, which is not a space, so its greedy run is the
    only one that can succeed. *)
Definition strip_leading_postcode (s : ustr) : ustr :=
  let s1 := lstrip s in
  match take_n_digits 3 s1 with
  | Some (c :: r) =>
      if N.eqb c 45 then
        match take_n_digits 4 r with
        | Some r' => lstrip r'
        | None => s
        end
      else s
  | _ => s
  end.

(** [.+?X] anchored at the start, [X] a one-character class [P]: after a
    first character that is not a newline, the lazy group grows one
    non-newline character at a time until the next character is in [P]. *)
Fixpoint lazy_go (P : N -> bool) (acc : ustr) (s : ustr) : option (ustr * ustr) :=
  match s with
  | [] => None
  | c :: r =>
      if P c then Some (rev (c :: acc), r)
      else if N.eqb c NL then None
      else lazy_go P (c :: acc) r
  end.

Definition lazy_suffix (P : N -> bool) (s : ustr) : option (ustr * ustr) :=
  match s with
  | [] => None
  | c :: r => if N.eqb c NL then None else lazy_go P [c] r
  end.

Definition is_pref_suffix (c : N) : bool := mem c (u "都道府県").
Definition is_city_suffix (c : N) : bool := mem c (u "市区郡町村").

Record AddressParts := {
  prefecture : option ustr;
  city : option ustr;
  district : option ustr;
  chome_banchi : option ustr
}.

Definition split_japanese_address_simple (addr0 : ustr) : AddressParts :=
  let addr := strip_leading_postcode addr0 in
  let '(pref, rest1) :=
    match lazy_suffix is_pref_suffix addr with
    | Some (m, r) => (Some m, strip r)
    | None => (None, addr)
    end in
  let '(cty, rest2) :=
    match lazy_suffix is_city_suffix rest1 with
    | Some (m, r) => (Some m, strip r)
    | None => (None, rest1)
    end in
  {| prefecture := pref; city := cty; district := None;
     chome_banchi := match rest2 with [] => None | _ => Some rest2 end |}.

(** ** Building type and year (result.py, lines 105-123) *)

(** [re.search(r"(\d{4})年", text)], anchored form. *)
Definition year_at (s : ustr) : option ustr :=
  match s with
  | a :: b :: c :: d :: k :: _ =>
      if forallb is_decimal [a; b; c; d] && mem k (u "年") then Some [a; b; c; d]
      else None
  | _ => None
  end.

Definition extract_year_simple (text : option ustr) : option ustr :=
  match text with
  | None | Some [] => None
  | Some t => search year_at t
  end.

Definition building_type_mapping : list (ustr * ustr) :=
  [(u "マンション", u "apartment");
   (u "アパート", u "apartment");
   (u "一戸建て", u "house");
   (u "戸建", u "house");
   (u "テラスハウス", u "townhouse");
   (u "タウンハウス", u "townhouse")].

(** [d.get(k)] on a dict modelled as an association list in insertion
    order, and [d[k] = v]: an existing key keeps its place. *)
Fixpoint dget {V : Type} (k : ustr) (d : list (ustr * V)) : option V :=
  match d with
  | [] => None
  | (k', v) :: r => if ueqb k k' then Some v else dget k r
  end.

Fixpoint dset {V : Type} (k : ustr) (v : V) (d : list (ustr * V)) : list (ustr * V) :=
  match d with
  | [] => [(k, v)]
  | (k', v') :: r => if ueqb k k' then (k', v) :: r else (k', v') :: dset k v r
  end.

Definition normalize_building_type_simple (jp : option ustr) : option ustr :=
  match jp with
  | None | Some [] => None
  | Some j => dget (strip j) building_type_mapping
  end.

(** ** The tree BeautifulSoup builds *)

(** The class of a string node: [NavigableString], [CData], the classes
    the HTML tree builder gives to the strings inside a [script], [style],
    [template], [rt] or [rp] element ([Script], [Stylesheet],
    [TemplateString], [RubyTextString], [RubyParenthesisString]), or a
    comment, declaration, doctype or processing instruction. *)
Inductive str_kind :=
| NavStr | CDataStr | ScriptStr | StyleStr | TemplateStr | RubyTextStr | RubyParenStr
| OtherStr.

Inductive node : Type :=
| Str (k : str_kind) (s : ustr)
| Elem (tag : ustr) (attrs : list (ustr * ustr)) (kids : list node).

(** Induction over trees, with the hypothesis for every child. *)
Fixpoint node_ind_kids (P : node -> Prop) (Hs : forall k s, P (Str k s))
    (He : forall t ats kids, Forall P kids -> P (Elem t ats kids)) (n : node) : P n :=
  match n with
  | Str k s => Hs k s
  | Elem t ats kids =>
      He t ats kids
        ((fix go (l : list node) : Forall P l :=
            match l with
            | [] => @Forall_nil node P
            | k :: r => @Forall_cons node P k r (node_ind_kids P Hs He k) (go r)
            end) kids)
  end.

(** [tag.descendants], in document order. *)
Fixpoint descendants (n : node) : list node :=
  match n with
  | Str _ _ => []
  | Elem _ _ kids =>
      (fix go (l : list node) : list node :=
         match l with
         | [] => []
         | k :: r => k :: descendants k ++ go r
         end) kids
  end.

(** Every descendant together with its following siblings. *)
Fixpoint with_next_siblings (n : node) : list (node * list node) :=
  match n with
  | Str _ _ => []
  | Elem _ _ kids =>
      (fix go (l : list node) : list (node * list node) :=
         match l with
         | [] => []
         | k :: r => (k, r) :: with_next_siblings k ++ go r
         end) kids
  end.

Definition str_kind_eqb (a b : str_kind) : bool :=
  match a, b with
  | NavStr, NavStr | CDataStr, CDataStr | ScriptStr, ScriptStr | StyleStr, StyleStr
  | TemplateStr, TemplateStr | RubyTextStr, RubyTextStr | RubyParenStr, RubyParenStr
  | OtherStr, OtherStr => true
  | _, _ => false
  end.

(** [HTMLTreeBuilder.DEFAULT_STRING_CONTAINERS]: the string class of the
    tags that have one. *)
Definition string_container (t : ustr) : option str_kind :=
  if ueqb t (u "rt") then Some RubyTextStr
  else if ueqb t (u "rp") then Some RubyParenStr
  else if ueqb t (u "style") then Some StyleStr
  else if ueqb t (u "script") then Some ScriptStr
  else if ueqb t (u "template") then Some TemplateStr
  else None.

(** [tag.interesting_string_types]: the container's own class for a
    container tag, [(NavigableString, CData)] for any other tag and for
    the document itself; [_all_strings] compares the exact class. *)
Definition interesting (n : node) (k : str_kind) : bool :=
  match n with
  | Elem t _ _ =>
      match string_container t with
      | Some k' => str_kind_eqb k k'
      | None => match k with NavStr | CDataStr => true | _ => false end
      end
  | Str _ _ => false
  end.

(** [tag.get_text(sep, strip=...)]. *)
Definition text_pieces (strp : bool) (n : node) : list ustr :=
  flat_map (fun d =>
              match d with
              | Str k s =>
                  if interesting n k then
                    if strp then match strip s with [] => [] | t => [t] end else [s]
                  else []
              | _ => []
              end) (descendants n).

Definition get_text (sep : ustr) (strp : bool) (n : node) : ustr :=
  join sep (text_pieces strp n).

(** [tag.string]. *)
Fixpoint node_string (n : node) : option ustr :=
  match n with
  | Str _ s => Some s
  | Elem _ _ [k] => node_string k
  | Elem _ _ _ => None
  end.

Definition get_attr (a : ustr) (n : node) : option ustr :=
  match n with
  | Str _ _ => None
  | Elem _ attrs _ => dget a attrs
  end.

Definition is_tag (t : ustr) (n : node) : bool :=
  match n with
  | Elem t' _ _ => ueqb t t'
  | Str _ _ => false
  end.

(** The CSS selectors the source uses. *)
Inductive selector :=
| STag (t : ustr)
| SClass (c : ustr)
| SId (i : ustr)
| SAttrEq (a v : ustr)
| STagClass (t c : ustr)
| STagAttrEq (t a v : ustr).

Definition has_class (c : ustr) (n : node) : bool :=
  match get_attr (u "class") n with
  | Some v => existsb (ueqb c) (split_ws v)
  | None => false
  end.

Definition attr_is (a v : ustr) (n : node) : bool :=
  match get_attr a n with Some w => ueqb v w | None => false end.

Definition matches (sel : selector) (n : node) : bool :=
  match n with
  | Str _ _ => false
  | Elem _ _ _ =>
      match sel with
      | STag t => is_tag t n
      | SClass c => has_class c n
      | SId i => attr_is (u "id") i n
      | SAttrEq a v => attr_is a v n
      | STagClass t c => is_tag t n && has_class c n
      | STagAttrEq t a v => is_tag t n && attr_is a v n
      end
  end.

(** [tag.select(sel)] and [tag.select_one(sel)]; [find] with a tag name
    and an attribute is the same query. *)
Definition select (sel : selector) (n : node) : list node :=
  filter (matches sel) (descendants n).

Definition select_one (sel : selector) (n : node) : option node :=
  hd_error (select sel n).

(** ** Side-info map (result.py, lines 91-103) *)

Fixpoint side_info_loop (cur : option ustr) (els : list node)
    (out : list (ustr * ustr)) : list (ustr * ustr) :=
  match els with
  | [] => out
  | el :: r =>
      if is_tag (u "dt") el then side_info_loop (Some (get_text [] true el)) r out
      else if is_tag (u "dd") el then
        match cur with
        | Some ((_ :: _) as c) => side_info_loop None r (dset c (get_text (u " ") true el) out)
        | _ => side_info_loop cur r out
        end
      else side_info_loop cur r out
  end.

Definition get_side_info_map_simple (soup : node) : list (ustr * ustr) :=
  match select_one (STagClass (u "dl") (u "rent_view_side_info")) soup with
  | None => []
  | Some dl =>
      side_info_loop None
        (filter (fun e => is_tag (u "dt") e || is_tag (u "dd") e) (descendants dl)) []
  end.

(** ** Building name (result.py, lines 145-162) *)

(** [s.split(sep)[0]] for a set of one-character separators. *)
Fixpoint before_any (seps : ustr) (s : ustr) : ustr :=
  match s with
  | [] => []
  | c :: r => if mem c seps then [] else c :: before_any seps r
  end.

(** [a or b]: the first operand when it is truthy. *)
Definition py_or (a b : option ustr) : option ustr :=
  match a with Some (_ :: _) => a | _ => b end.

Definition extract_building_name_jp_simple (soup : node) : option ustr :=
  let info := get_side_info_map_simple soup in
  match py_or (dget (u "物件名") info) (py_or (dget (u "建物名") info) (dget (u "マンション名") info)) with
  | Some ((_ :: _) as name) => Some (strip name)
  | _ =>
      let h := match select_one (STag (u "h1")) soup with
               | Some e => Some e
               | None => match select_one (STag (u "h2")) soup with
                         | Some e => Some e
                         | None => select_one (SClass (u "rent_view_ttl")) soup
                         end
               end in
      let from_h := match h with
                    | Some e => match get_text (u " ") true e with [] => None | txt => Some txt end
                    | None => None
                    end in
      match from_h with
      | Some txt => Some txt
      | None =>
          match select_one (STag (u "title")) soup with
          | Some ttl =>
              match strip (before_any (u "｜|\") (get_text [] true ttl)) with
              | [] => None
              | t => Some t
              end
          | None => None
          end
      end
  end.

(** ** Postal code and address text (result.py, lines 35-62) *)

Definition address_candidates : list selector :=
  [SAttrEq (u "itemprop") (u "address"); SClass (u "address"); SClass (u "addr");
   SClass (u "p-address"); SClass (u "detailAddress"); SId (u "address");
   SClass (u "l-property__address"); SClass (u "c-detailAddress");
   SClass (u "p-detail__address")].

(** [\d{3}-\d{4}] at the start of [s]: the seven-character text and the rest. *)
Definition postcode_prefix (s : ustr) : option (ustr * ustr) :=
  match s with
  | a :: b :: c :: h :: d :: e :: f :: g :: r =>
      if forallb is_decimal [a; b; c; d; e; f; g] && N.eqb h 45
      then Some ([a; b; c; h; d; e; f; g], r) else None
  | _ => None
  end.

(** [\b(\d{3}-\d{4})\b] at a position whose previous character is [prev]. *)
Definition postcode_at (prev : option N) (s : ustr) : option ustr :=
  if match prev with Some p => is_word p | None => false end then None
  else match postcode_prefix s with
       | Some (m, r) =>
           if match r with x :: _ => is_word x | [] => false end then None else Some m
       | None => None
       end.

(** [re.search] for a pattern that looks one character behind. *)
Fixpoint search_prev {A : Type} (f : option N -> ustr -> option A)
    (prev : option N) (s : ustr) : option A :=
  match f prev s with
  | Some a => Some a
  | None => match s with [] => None | c :: r => search_prev f (Some c) r end
  end.

Definition extract_postcode (soup : node) : option ustr :=
  let fix try_sel (sels : list selector) : option ustr :=
    match sels with
    | [] => search_prev postcode_at None (get_text (u " ") true soup)
    | sel :: r =>
        match select_one sel soup with
        | Some el =>
            match search_prev postcode_at None (get_text (u " ") true el) with
            | Some m => Some m
            | None => try_sel r
            end
        | None => try_sel r
        end
    end in
  try_sel address_candidates.

(** Up to [n] characters before the next newline ([[^\n]{0,n}], greedy). *)
Fixpoint take_line (n : nat) (s : ustr) : ustr :=
  match n, s with
  | S k, c :: r => if N.eqb c NL then [] else c :: take_line k r
  | _, _ => []
  end.

(** [(\d{3}-\d{4}[^\n]{0,200})] at the start of [s]. *)
Definition address_line_at (s : ustr) : option ustr :=
  match postcode_prefix s with
  | Some (m, r) => Some (m ++ take_line 200 r)
  | None => None
  end.

(** [re.split(r"(TEL|Fax|FAX|電話)", line, maxsplit=1)[0]]. *)
Fixpoint before_first (pats : list ustr) (s : ustr) : ustr :=
  match s with
  | [] => []
  | c :: r => if existsb (startswith s) pats then [] else c :: before_first pats r
  end.

Definition tel_labels : list ustr := [u "TEL"; u "Fax"; u "FAX"; u "電話"].

Definition extract_address_text_simple (soup : node) : option ustr :=
  let page := get_text [NL] true soup in
  match search address_line_at page with
  | None => None
  | Some line =>
      match strip (before_first tel_labels line) with
      | [] => None
      | l => Some l
      end
  end.

(** ** Coordinates from class selectors (result.py, lines 178-183) *)

Definition extract_map_coords_basic (soup : node) : option ustr * option ustr :=
  (option_map (get_text [] true) (select_one (SClass (u "latitude")) soup),
   option_map (get_text [] true) (select_one (SClass (u "longitude")) soup)).

(** ** Stations (result.py, lines 185-206) *)

Record Station := { st_line : option ustr; st_station : option ustr; st_walk : option ustr }.

Definition is_eki (c : N) : bool := mem c (u "駅").

(** [(.+?)SEP(.+?駅)] at the start of [s]: the lazy first group grows one
    non-newline character at a time until a separator follows that is
    itself followed by a match of [.+?駅]. *)
Fixpoint line_station_go (sep : N) (acc : ustr) (s : ustr) : option (ustr * ustr) :=
  match s with
  | [] => None
  | c :: r =>
      if N.eqb c NL then None
      else
        match r with
        | d :: r' =>
            if N.eqb d sep then
              match lazy_suffix is_eki r' with
              | Some (st, _) => Some (rev (c :: acc), st)
              | None => line_station_go sep (c :: acc) r
              end
            else line_station_go sep (c :: acc) r
        | [] => None
        end
  end.

Definition line_station_at (sep : N) (s : ustr) : option (ustr * ustr) :=
  line_station_go sep [] s.

(** [徒歩\s*(\d+)\s*分] at the start of [s]; neither [\s*] nor [\d+] can
    give back characters to the next item, so the greedy runs decide. *)
Definition walk_at (s : ustr) : option ustr :=
  match strip_prefix (u "徒歩") s with
  | None => None
  | Some r =>
      match span_digits (lstrip r) with
      | ([], _) => None
      | (d, r2) => match lstrip r2 with
                   | c :: _ => if mem c (u "分") then Some d else None
                   | [] => None
                   end
      end
  end.

Definition station_item (t : ustr) : Station :=
  let m := match search (line_station_at 65295%N) t with
           | Some p => Some p
           | None => search (line_station_at 47%N) t
           end in
  {| st_line := option_map (fun p => strip (fst p)) m;
     st_station := option_map (fun p => strip (snd p)) m;
     st_walk := search walk_at t |}.

Fixpoint collect_items (limit : nat) (lis : list node) (result : list Station) : list Station :=
  match lis with
  | [] => result
  | li :: r =>
      let result' := result ++ [station_item (get_text (u " ") true li)] in
      if Nat.leb limit (length result') then result' else collect_items limit r result'
  end.

Fixpoint stations_loop (limit : nat) (dts : list (node * list node)) : list Station :=
  match dts with
  | [] => []
  | (dt, sibs) :: r =>
      if ueqb (get_text [] true dt) (u "交通") then
        match find (is_tag (u "dd")) sibs with
        | None => []
        | Some dd => collect_items limit (select (STag (u "li")) dd) []
        end
      else stations_loop limit r
  end.

Definition extract_stations_basic (soup : node) (limit : nat) : list Station :=
  stations_loop limit (filter (fun p => is_tag (u "dt") (fst p)) (with_next_siblings soup)).

(** ** URL joining: the raising part of [urllib.parse.urlsplit] *)

(** [url.lstrip(_WHATWG_C0_CONTROL_OR_SPACE)]. *)
Fixpoint lstrip_c0 (s : ustr) : ustr :=
  match s with
  | c :: r => if (c <=? 32)%N then lstrip_c0 r else s
  | [] => []
  end.

Definition is_ascii_alpha (c : N) : bool :=
  ((65 <=? c) && (c <=? 90))%N || ((97 <=? c) && (c <=? 122))%N.

Definition is_scheme_char (c : N) : bool :=
  is_ascii_alpha c || ((48 <=? c) && (c <=? 57))%N || mem c (u "+-.").

(** [s.find(c)] split: the text before the first [c] and after it. *)
Fixpoint split_first (c : N) (s : ustr) : option (ustr * ustr) :=
  match s with
  | [] => None
  | x :: r => if N.eqb x c then Some ([], r)
              else match split_first c r with
                   | Some (a, b) => Some (x :: a, b)
                   | None => None
                   end
  end.

(** The netloc check of [urlsplit] (Python 3.11): after removing leading
    C0 controls and spaces and every tab, CR and LF, and after a valid
    scheme, a [//] authority whose text up to the first [/], [?] or [#]
    holds exactly one of [[] and []] raises [ValueError]. *)
Definition urlsplit_raises (url0 : ustr) : bool :=
  let url1 := filter (fun c => negb (mem c [9; 13; 10]%N)) (lstrip_c0 url0) in
  let url2 := match split_first 58 url1 with
              | Some ((c0 :: _) as sch, rest) =>
                  if is_ascii_alpha c0 && forallb is_scheme_char sch then rest else url1
              | _ => url1
              end in
  match strip_prefix (u "//") url2 with
  | Some r =>
      let netloc := before_any (u "/?#") r in
      xorb (mem 91 netloc) (mem 93 netloc)
  | None => false
  end.

(** ** Code that depends on the optional and library capabilities *)

Section Capabilities.

(** The pykakasi converter ([None] when its import failed at load time),
    [str.capitalize], the JSON reading of the structured-data block
    ([json.loads], the [geo] lookup and [str] of truthy coordinates; [None]
    on any failure, which the source catches), and the remainder of
    [urllib.parse.urljoin] after the netloc checks (scheme, netloc and
    path resolution; [None] when it raises for any other reason). *)
Variable kk_conv : option (ustr -> ustr).
Variable capitalize : ustr -> ustr.
Variable ld_geo : ustr -> option (ustr * ustr).
Variable url_resolve : ustr -> ustr -> option ustr.

(** [to_english_name_simple] (result.py, lines 134-143). *)
Definition to_english_name_simple (text : option ustr) : option ustr :=
  match text with
  | None | Some [] => None
  | Some x =>
      let t := strip x in
      if existsb is_ascii_alpha t then Some t
      else match kk_conv with
           | Some conv =>
               let romaji := strip (replace (u "  ") (u " ") (conv t)) in
               Some (join (u " ") (map capitalize (split_ws romaji)))
           | None => Some t
           end
  end.

(** [extract_map_coords_simple] (result.py, lines 164-176). *)
Definition extract_map_coords_simple (soup : node) : option ustr * option ustr :=
  match select_one (STagAttrEq (u "script") (u "type") (u "application/ld+json")) soup with
  | Some sc =>
      match node_string sc with
      | Some ((_ :: _) as s) =>
          match ld_geo s with
          | Some (lat, lng) => (Some lat, Some lng)
          | None => (None, None)
          end
      | _ => (None, None)
      end
  | None => (None, None)
  end.

(** [urljoin(base, url)]; [None] is the [ValueError] it raises. *)
Definition urljoin (base url : ustr) : option ustr :=
  match base, url with
  | [], _ => Some url
  | _, [] => Some base
  | _, _ => if urlsplit_raises base || urlsplit_raises url then None
            else url_resolve base url
  end.

(** [img.get("data-src") or img.get("src")]. *)
Definition img_src (img : node) : option ustr :=
  match get_attr (u "data-src") img with
  | Some ((_ :: _) as v) => Some v
  | _ => get_attr (u "src") img
  end.

Fixpoint images_loop (base : ustr) (limit : nat) (imgs : list node) (urls : list ustr)
    : option (list ustr) :=
  match imgs with
  | [] => Some urls
  | img :: r =>
      match img_src img with
      | None | Some [] => images_loop base limit r urls
      | Some s =>
          if startswith s (u "data:") then images_loop base limit r urls
          else
            match urljoin base s with
            | None => None
            | Some abs_url =>
                let urls' := if existsb (ueqb abs_url) urls then urls else urls ++ [abs_url] in
                if Nat.leb limit (length urls') then Some urls'
                else images_loop base limit r urls'
            end
      end
  end.

(** [extract_images_basic] (result.py, lines 208-219). *)
Definition extract_images_basic (soup : node) (base_url : ustr) (limit : nat)
    : option (list ustr) :=
  images_loop base_url limit (select (STag (u "img")) soup) [].

(** ** The record (result.py, lines 224-297) *)

Definition record := list (ustr * option ustr).

Definition station_field (f : Station -> option ustr) (stations : list Station) (i : nat)
    : option ustr :=
  match nth_error stations (i - 1) with
  | Some st => f st
  | None => None
  end.

(** One iteration of [for i in range(1, 6)]. *)
Definition station_group (stations : list Station) (data : record) (i : nat) : record :=
  let data := dset (u "station_name_" ++ show_nat i) (station_field st_station stations i) data in
  let data := dset (u "train_line_name_" ++ show_nat i) (station_field st_line stations i) data in
  let data := dset (u "walk_" ++ show_nat i) (station_field st_walk stations i) data in
  let data := dset (u "bus_" ++ show_nat i) None data in
  let data := dset (u "car_" ++ show_nat i) None data in
  dset (u "cycle_" ++ show_nat i) None data.

(** One iteration of [for i in range(1, 17)]. *)
Definition image_group (imgs : list ustr) (data : record) (i : nat) : record :=
  let data := dset (u "image_url_" ++ show_nat i) (nth_error imgs (i - 1)) data in
  dset (u "image_category_" ++ show_nat i) None data.

Definition build_record (url : ustr) (csv_id postcode : option ustr) (addr : AddressParts)
    (building_type_en year_built building_name_en name_jp : option ustr)
    (lat lng : option ustr) (stations : list Station) (imgs : list ustr) : record :=
  let data : record :=
    [(u "link", Some url);
     (u "property_csv_id", csv_id);
     (u "postcode", postcode);
     (u "prefecture", prefecture addr);
     (u "city", city addr);
     (u "district", district addr);
     (u "chome_banchi", chome_banchi addr);
     (u "building_type", building_type_en);
     (u "year", year_built);
     (u "building_name_en", building_name_en);
     (u "building_name_ja", name_jp);
     (u "building_name_zh_CN", None);
     (u "building_name_zh_TW", None);
     (u "building_description_en", None);
     (u "building_description_ja", None);
     (u "building_description_zh_CN", None);
     (u "building_description_zh_TW", None);
     (u "map_lat", lat);
     (u "map_lng", lng);
     (u "numeric_guarantor_max", None);
     (u "discount", None);
     (u "create_date", None)] in
  let data := dset (u "map_lng") lng (dset (u "map_lat") lat data) in
  let data := fold_left (station_group stations) (seq 1 5) data in
  fold_left (image_group imgs) (seq 1 16) data.

Definition no_address : AddressParts :=
  {| prefecture := None; city := None; district := None; chome_banchi := None |}.

(** [parse_property]; [None] is an exception escaping it. *)
Definition parse_property (url : ustr) (soup : node) : option record :=
  let info := get_side_info_map_simple soup in
  let addr_text := py_or (dget (u "所在地") info) (extract_address_text_simple soup) in
  let addr_parts := match addr_text with
                    | Some ((_ :: _) as a) => split_japanese_address_simple a
                    | _ => no_address
                    end in
  let building_type_en := normalize_building_type_simple (dget (u "種別") info) in
  let year_built := extract_year_simple (dget (u "築年月") info) in
  let name_jp := extract_building_name_jp_simple soup in
  let building_name_en := to_english_name_simple name_jp in
  let lat_lng := extract_map_coords_simple soup in
  let lat_lng := extract_map_coords_basic soup in
  let stations := extract_stations_basic soup 5 in
  match extract_images_basic soup url 8 with
  | None => None
  | Some imgs =>
      Some (build_record url (extract_property_csv_id url) (extract_postcode soup)
              addr_parts building_type_en year_built building_name_en name_jp
              (fst lat_lng) (snd lat_lng) stations imgs)
  end.

End Capabilities.

(** The field names of the record, in the order the source writes them. *)
Definition base_keys : list ustr :=
  map u ["link"; "property_csv_id"; "postcode"; "prefecture"; "city"; "district";
         "chome_banchi"; "building_type"; "year"; "building_name_en";
         "building_name_ja"; "building_name_zh_CN"; "building_name_zh_TW";
         "building_description_en"; "building_description_ja";
         "building_description_zh_CN"; "building_description_zh_TW";
         "map_lat"; "map_lng"; "numeric_guarantor_max"; "discount"; "create_date"]%string.

Definition station_keys (i : nat) : list ustr :=
  map (fun p => u p ++ show_nat i)
      ["station_name_"; "train_line_name_"; "walk_"; "bus_"; "car_"; "cycle_"]%string.

Definition image_keys (i : nat) : list ustr :=
  [u "image_url_" ++ show_nat i; u "image_category_" ++ show_nat i].

Definition schema_keys : list ustr :=
  base_keys ++ flat_map station_keys (seq 1 5) ++ flat_map image_keys (seq 1 16).

(** ** Sample pages and capabilities used by the witnesses *)

Definition el (t : string) (attrs : list (string * string)) (kids : list node) : node :=
  Elem (u t) (map (fun '(a, v) => (u a, u v)) attrs) kids.
Definition txt (s : string) : node := Str NavStr (u s).
Definition document (kids : list node) : node := Elem (u "[document]") [] kids.

Definition demo_geo (_ : ustr) : option (ustr * ustr) := Some (u "35.6655", u "139.7090").
Definition demo_resolve (base url : ustr) : option ustr := Some (base ++ url).

Definition demo_img (k : nat) : node :=
  Elem (u "img") [(u "src", u "/img/" ++ show_nat k ++ u ".jpg")] [].

Definition doc_demo : node :=
  document [el "html" [] [
    el "head" [] [el "title" [] [txt "パークタワー｜賃貸"];
                  el "script" [("type", "application/ld+json")%string]
                     [Str ScriptStr (map (fun c => if N.eqb c 39 then 34%N else c)
                          (u "{'geo': {'latitude': 35.6655, 'longitude': 139.7090}}"))]];
    el "body" [] ([
      el "h1" [] [txt "パークタワー"];
      el "dl" [("class", "rent_view_side_info")%string] [
        el "dt" [] [txt "所在地"]; el "dd" [] [txt "東京都渋谷区神宮前1-2-3"];
        el "dt" [] [txt "種別"]; el "dd" [] [txt "マンション"];
        el "dt" [] [txt "築年月"]; el "dd" [] [txt "2001年3月"];
        el "dt" [] [txt "交通"];
        el "dd" [] [el "ul" [] [el "li" [] [txt "東急東横線／渋谷駅 徒歩7分"];
                                el "li" [] [txt "JR山手線/原宿駅 徒歩10分"]]]]]
      ++ map demo_img (seq 1 10))]].

Definition demo_url : ustr := u "https://rent.tokyu-housing-lease.co.jp/rent/8034884/117024".

Definition demo_record : record :=
  match parse_property None (fun x => x) demo_geo demo_resolve demo_url doc_demo with
  | Some r => r
  | None => []
  end.

Definition doc_bad_img : node :=
  document [el "html" [] [el "body" [] [el "img" [("src", "http://[broken")%string] []]]].

Definition doc_empty : node := document [el "html" [] []].

Definition doc_two_access : node :=
  document [el "html" [] [el "body" [] [el "dl" [] [
    el "dt" [] [txt "交通"];
    el "dd" [] [el "ul" [] [el "li" [] [txt "東急東横線／渋谷駅 徒歩7分"]]];
    el "dt" [] [txt "交通"];
    el "dd" [] [el "ul" [] [el "li" [] [txt "JR山手線/原宿駅 徒歩10分"]]]]]]].

(** The address-text procedure as the specification words it: the first
    address selector whose element has non-empty text gives that text, and
    only then the page-text fallback of the source. *)
Definition extract_address_text_by_spec (soup : node) : option ustr :=
  let fix try_sel (sels : list selector) : option ustr :=
    match sels with
    | [] => extract_address_text_simple soup
    | sel :: r =>
        match select_one sel soup with
        | Some e => match get_text (u " ") true e with [] => try_sel r | t => Some t end
        | None => try_sel r
        end
    end in
  try_sel address_candidates.

Definition doc_address_div : node :=
  document [el "html" [] [el "body" [] [
    el "div" [("class", "address")%string] [txt "東京都渋谷区神宮前1-2-3"]]]].

Definition doc_address_tel : node :=
  document [el "html" [] [el "body" [] [
    el "div" [("class", "address")%string]
       [txt "150-0001 東京都渋谷区neighborhood TEL 03-1234-5678"]]]].

Definition doc_address_label : node :=
  document [el "html" [] [el "body" [] [
    el "p" [] [txt "住所：150-0001 東京都渋谷区 電話 03-1234-5678"]]]].

(** The primary identifier pattern, stated over the text: [/rent/], a
    digit run, a slash, and a digit run that is not followed by a digit. *)
Definition rent_match (s d1 d2 : ustr) : Prop :=
  exists r, s = u "/rent/" ++ d1 ++ 47%N :: d2 ++ r /\ numeric d1 = true /\
            numeric d2 = true /\ match r with c :: _ => is_decimal c = false | [] => True end.

(** The address rule in the words of the claim: the leftmost prefix that
    ends in a character of [P]. *)
Fixpoint prefix_through_first (P : N -> bool) (s : ustr) : option ustr :=
  match s with
  | [] => None
  | c :: r => if P c then Some [c] else option_map (cons c) (prefix_through_first P r)
  end.

(** A prefix of [s] of at least two characters, ending in a [P]
    character, with no newline before that character. *)
Definition ends_prefix (P : N -> bool) (s p : ustr) : Prop :=
  (exists r, s = p ++ r) /\
  exists q c, p = q ++ [c] /\ q <> [] /\ P c = true /\ (forall x, In x q -> x <> NL).

(** ... and the shortest one: no [P] character after the first one. *)
Definition shortest_ends_prefix (P : N -> bool) (s p : ustr) : Prop :=
  ends_prefix P s p /\
  forall q c q1 x q2, p = q ++ [c] -> q = q1 ++ x :: q2 -> q1 <> [] -> P x = false.
(** [(.+?)SEP(.+?駅)] can match at the start of [s] with first group [g1]:
    [g1] is non-empty and has no newline, the separator follows it, and
    after that comes a prefix ending in 駅 as [.+?駅] matches it. *)
Definition line_station_match (sep : N) (s g1 : ustr) : Prop :=
  exists r, s = g1 ++ sep :: r /\ g1 <> [] /\ ~ In NL g1 /\ exists st, ends_prefix is_eki r st.

(** The groups [re.search] reports for [(.+?)SEP(.+?駅)] in [t]: the
    leftmost position where the pattern matches, the shortest first group
    there, and the shortest station group after the separator. *)
Definition first_line_station (sep : N) (t g1 g2 : ustr) : Prop :=
  exists pre s r, t = pre ++ s /\ line_station_match sep s g1 /\
    (forall g, line_station_match sep s g -> length g1 <= length g) /\
    s = g1 ++ sep :: r /\ shortest_ends_prefix is_eki r g2 /\
    forall p1 p2 g, pre = p1 ++ p2 -> p2 <> [] -> ~ line_station_match sep (p2 ++ s) g.

(** [徒歩\s*(\d+)\s*分] matches at the start of [s] with group [d]. *)
Definition walk_match (s d : ustr) : Prop :=
  exists w1 w2 r, s = u "徒歩" ++ w1 ++ d ++ w2 ++ u "分" ++ r /\
    forallb is_space w1 = true /\ forallb is_space w2 = true /\
    d <> [] /\ forallb is_decimal d = true.

(** The group [re.search] reports for it in [t]: at the leftmost match. *)
Definition first_walk (t d : ustr) : Prop :=
  exists pre s, t = pre ++ s /\ walk_match s d /\
    forall p1 p2 d', pre = p1 ++ p2 -> p2 <> [] -> ~ walk_match (p2 ++ s) d'.


(** A postal code as [\d{3}-\d{4}] matches it. *)
Definition postcode_shape (m : ustr) : Prop :=
  exists a b c d e f g, m = [a; b; c; 45; d; e; f; g]%N /\
    forallb is_decimal [a; b; c; d; e; f; g] = true.

(** The text of an optional field, empty when absent. *)
Definition ostr (o : option ustr) : ustr := match o with Some x => x | None => [] end.

(** A text with no whitespace at either end. *)
Definition edges_ok (s : ustr) : Prop :=
  match s with [] => True | c :: _ => is_space c = false /\ is_space (last s 0%N) = false end.

(** An entry of the side-information map: a non-empty label, both
    label and value without whitespace at the ends. *)
Definition side_entry_ok (kv : ustr * ustr) : Prop :=
  fst kv <> [] /\ strip (fst kv) = fst kv /\ strip (snd kv) = snd kv.

(** An [img] the image loop passes over: no usable source, or a [data:] one. *)
Definition img_skipped (img : node) : bool :=
  match img_src img with
  | None | Some [] => true
  | Some s => startswith s (u "data:")
  end.

(** ** Record shape *)

Lemma build_record_keys url csv pc addr bt yr ne nj lat lng sts imgs :
  map fst (build_record url csv pc addr bt yr ne nj lat lng sts imgs) = schema_keys.
Proof. vm_compute. reflexivity. Qed.

Lemma parse_property_inv kk cap geo res url soup rec :
  parse_property kk cap geo res url soup = Some rec ->
  exists imgs csv pc addr bt yr ne nj,
    extract_images_basic res soup url 8 = Some imgs /\
    rec = build_record url csv pc addr bt yr ne nj
            (fst (extract_map_coords_basic soup)) (snd (extract_map_coords_basic soup))
            (extract_stations_basic soup 5) imgs.
Proof.
  unfold parse_property. destruct (extract_images_basic res soup url 8) as [imgs|] eqn:E;
    [|discriminate].
  intros H; injection H as <-. do 8 eexists. split; [reflexivity|reflexivity].
Qed.

Lemma build_record_station i url csv pc addr bt yr ne nj lat lng sts imgs :
  (1 <= i <= 5)%nat ->
  let r := build_record url csv pc addr bt yr ne nj lat lng sts imgs in
  dget (u "station_name_" ++ show_nat i) r = Some (station_field st_station sts i) /\
  dget (u "train_line_name_" ++ show_nat i) r = Some (station_field st_line sts i) /\
  dget (u "walk_" ++ show_nat i) r = Some (station_field st_walk sts i).
Proof.
  intros Hi.
  destruct i as [|[|[|[|[|[|i]]]]]]; try lia; vm_compute; repeat split.
Qed.

Lemma build_record_image i url csv pc addr bt yr ne nj lat lng sts imgs :
  (1 <= i <= 16)%nat ->
  let r := build_record url csv pc addr bt yr ne nj lat lng sts imgs in
  dget (u "image_url_" ++ show_nat i) r = Some (nth_error imgs (i - 1)) /\
  dget (u "image_category_" ++ show_nat i) r = Some None.
Proof.
  intros Hi.
  do 17 (destruct i as [|i]; [try lia; vm_compute; split; reflexivity|]). lia.
Qed.

Lemma build_record_coords url csv pc addr bt yr ne nj lat lng sts imgs :
  let r := build_record url csv pc addr bt yr ne nj lat lng sts imgs in
  dget (u "map_lat") r = Some lat /\ dget (u "map_lng") r = Some lng.
Proof. vm_compute. split; reflexivity. Qed.

Lemma images_loop_length res base limit imgs urls r :
  (length urls < limit)%nat ->
  images_loop res base limit imgs urls = Some r -> (length r <= limit)%nat.
Proof.
  revert urls. induction imgs as [|img rest IH]; intros urls Hlt H; simpl in H.
  - injection H as <-. lia.
  - destruct (img_src img) as [[|c s]|]; [eapply IH; eauto| |eapply IH; eauto].
    destruct (startswith (c :: s) (u "data:")); [eapply IH; eauto|].
    destruct (urljoin res base (c :: s)) as [abs_url|]; [|discriminate].
    assert (Hl : (length (if existsb (ueqb abs_url) urls then urls else urls ++ [abs_url])
                  <= S (length urls))%nat)
      by (destruct (existsb (ueqb abs_url) urls); rewrite ?length_app; simpl; lia).
    destruct (Nat.leb limit _) eqn:L.
    + injection H as <-. lia.
    + apply Nat.leb_nle in L. eapply IH; [|eauto]. lia.
Qed.

Lemma extract_images_length res soup url limit imgs :
  (0 < limit)%nat -> extract_images_basic res soup url limit = Some imgs ->
  (length imgs <= limit)%nat.
Proof. intros H. apply images_loop_length. simpl. exact H. Qed.

Lemma station_field_pad f sts i :
  (length sts < i)%nat -> station_field f sts i = None.
Proof.
  intros H. unfold station_field.
  rewrite (proj2 (nth_error_None sts (i - 1))) by lia. reflexivity.
Qed.

(** Claim C2: the repeated groups are written for every index: station
    fields 1..5 and image URLs 1..16 are present keys, set from the
    discovered item at that index and null past the discovered count; with
    exactly two stations, [station_name_3..5] are present and null. *)
Theorem parse_property_repeated_groups kk cap geo res url soup rec :
  parse_property kk cap geo res url soup = Some rec ->
  let sts := extract_stations_basic soup 5 in
  map fst rec = schema_keys /\
  (forall i, (1 <= i <= 5)%nat ->
     dget (u "station_name_" ++ show_nat i) rec = Some (station_field st_station sts i) /\
     dget (u "train_line_name_" ++ show_nat i) rec = Some (station_field st_line sts i) /\
     dget (u "walk_" ++ show_nat i) rec = Some (station_field st_walk sts i) /\
     ((length sts < i)%nat ->
        dget (u "station_name_" ++ show_nat i) rec = Some None /\
        dget (u "train_line_name_" ++ show_nat i) rec = Some None /\
        dget (u "walk_" ++ show_nat i) rec = Some None)) /\
  (length sts = 2%nat ->
     forall i, (3 <= i <= 5)%nat -> dget (u "station_name_" ++ show_nat i) rec = Some None) /\
  (exists imgs, extract_images_basic res soup url 8 = Some imgs /\
     forall i, (1 <= i <= 16)%nat ->
       dget (u "image_url_" ++ show_nat i) rec = Some (nth_error imgs (i - 1)) /\
       ((length imgs < i)%nat -> dget (u "image_url_" ++ show_nat i) rec = Some None)).
Proof.
  intros H sts. subst sts.
  destruct (parse_property_inv _ _ _ _ _ _ _ H)
    as (imgs & csv & pc & addr & bt & yr & ne & nj & Himgs & ->).
  pose proof (fun i Hi => build_record_station i url csv pc addr bt yr ne nj
      (fst (extract_map_coords_basic soup)) (snd (extract_map_coords_basic soup))
      (extract_stations_basic soup 5) imgs Hi) as Hst.
  split; [apply build_record_keys|]. split; [|split].
  - intros i Hi. destruct (Hst i Hi) as (H1 & H2 & H3).
    rewrite H1, H2, H3.
    split; [reflexivity|]. split; [reflexivity|]. split; [reflexivity|].
    intros Hl. rewrite !station_field_pad by exact Hl. repeat split.
  - intros Hl i Hi. destruct (Hst i ltac:(lia)) as (H1 & _).
    rewrite H1, station_field_pad by lia. reflexivity.
  - exists imgs. split; [exact Himgs|]. intros i Hi.
    destruct (build_record_image i url csv pc addr bt yr ne nj
                (fst (extract_map_coords_basic soup)) (snd (extract_map_coords_basic soup))
                (extract_stations_basic soup 5) imgs Hi) as [H1 _].
    rewrite H1. split; [reflexivity|]. intros Hl.
    rewrite (proj2 (nth_error_None imgs (i - 1))) by lia. reflexivity.
Qed.

(** Witness for C2: the sample page has two stations; their names fill
    indices 1 and 2 and indices 3 to 5 are present with null. *)
Lemma parse_property_repeated_groups_witness :
  parse_property None (fun x => x) demo_geo demo_resolve demo_url doc_demo = Some demo_record /\
  dget (u "station_name_1") demo_record = Some (Some (u "渋谷駅")) /\
  dget (u "station_name_2") demo_record = Some (Some (u "原宿駅")) /\
  dget (u "station_name_3") demo_record = Some None /\
  dget (u "station_name_5") demo_record = Some None.
Proof.
  assert (H : parse_property None (fun x => x) demo_geo demo_resolve demo_url doc_demo
              = Some demo_record) by (vm_compute; reflexivity).
  destruct (parse_property_repeated_groups _ _ _ _ _ _ _ H) as (_ & Hs & H2 & _).
  split; [exact H|].
  assert (Hlen : length (extract_stations_basic doc_demo 5) = 2%nat) by (vm_compute; reflexivity).
  split; [exact (proj1 (Hs 1%nat ltac:(lia)))|].
  split; [exact (proj1 (Hs 2%nat ltac:(lia)))|].
  split; [exact (H2 Hlen 3%nat ltac:(lia))|exact (H2 Hlen 5%nat ltac:(lia))].
Defined.

(** Claim C5: the record's [map_lat] and [map_lng] are always the result
    of the class-selector strategy ([.latitude], [.longitude]); the
    structured-data result computed before is overwritten, whatever the
    JSON reading returns. *)
Theorem parse_property_coords_from_classes kk cap geo res url soup rec :
  parse_property kk cap geo res url soup = Some rec ->
  dget (u "map_lat") rec = Some (fst (extract_map_coords_basic soup)) /\
  dget (u "map_lng") rec = Some (snd (extract_map_coords_basic soup)).
Proof.
  intros H.
  destruct (parse_property_inv _ _ _ _ _ _ _ H)
    as (imgs & csv & pc & addr & bt & yr & ne & nj & _ & ->).
  apply build_record_coords.
Qed.

(** Witness for C5: on the sample page the structured-data strategy finds
    coordinates, the page has no [.latitude]/[.longitude], and the record
    holds null coordinates. *)
Lemma parse_property_coords_from_classes_witness :
  extract_map_coords_simple demo_geo doc_demo = (Some (u "35.6655"), Some (u "139.7090")) /\
  parse_property None (fun x => x) demo_geo demo_resolve demo_url doc_demo = Some demo_record /\
  dget (u "map_lat") demo_record = Some None /\
  dget (u "map_lng") demo_record = Some None.
Proof.
  assert (H : parse_property None (fun x => x) demo_geo demo_resolve demo_url doc_demo
              = Some demo_record) by (vm_compute; reflexivity).
  destruct (parse_property_coords_from_classes _ _ _ _ _ _ _ H) as [H1 H2].
  split; [vm_compute; reflexivity|]. split; [exact H|].
  rewrite H1, H2. split; vm_compute; reflexivity.
Defined.

(** Claim C10: image URLs 9 to 16 are always null, since at most 8 URLs
    are collected, and every image category 1 to 16 is always null. *)
Theorem parse_property_images_tail_null kk cap geo res url soup rec :
  parse_property kk cap geo res url soup = Some rec ->
  (forall i, (9 <= i <= 16)%nat -> dget (u "image_url_" ++ show_nat i) rec = Some None) /\
  (forall i, (1 <= i <= 16)%nat -> dget (u "image_category_" ++ show_nat i) rec = Some None).
Proof.
  intros H.
  destruct (parse_property_inv _ _ _ _ _ _ _ H)
    as (imgs & csv & pc & addr & bt & yr & ne & nj & Himgs & ->).
  pose proof (extract_images_length res soup url 8 imgs ltac:(lia) Himgs) as Hlen.
  split; intros i Hi.
  - destruct (build_record_image i url csv pc addr bt yr ne nj
                (fst (extract_map_coords_basic soup)) (snd (extract_map_coords_basic soup))
                (extract_stations_basic soup 5) imgs ltac:(lia)) as [H1 _].
    rewrite H1, (proj2 (nth_error_None imgs (i - 1))) by lia. reflexivity.
  - exact (proj2 (build_record_image i url csv pc addr bt yr ne nj
                    (fst (extract_map_coords_basic soup)) (snd (extract_map_coords_basic soup))
                    (extract_stations_basic soup 5) imgs Hi)).
Qed.

(** Witness for C10: the sample page has ten distinct images; the record
    keeps eight, and [image_url_9] and [image_category_1] are null. *)
Lemma parse_property_images_tail_null_witness :
  length (select (STag (u "img")) doc_demo) = 10%nat /\
  parse_property None (fun x => x) demo_geo demo_resolve demo_url doc_demo = Some demo_record /\
  dget (u "image_url_8") demo_record = Some (Some (demo_url ++ u "/img/8.jpg")) /\
  dget (u "image_url_9") demo_record = Some None /\
  dget (u "image_category_1") demo_record = Some None.
Proof.
  assert (H : parse_property None (fun x => x) demo_geo demo_resolve demo_url doc_demo
              = Some demo_record) by (vm_compute; reflexivity).
  destruct (parse_property_images_tail_null _ _ _ _ _ _ _ H) as [H1 H2].
  split; [vm_compute; reflexivity|]. split; [exact H|].
  split; [vm_compute; reflexivity|].
  split; [exact (H1 9%nat ltac:(lia))|exact (H2 1%nat ltac:(lia))].
Defined.

(** Claim C1 fails: an [img] whose [src] has an unbalanced bracket in its
    authority makes [urljoin] raise [ValueError], which nothing catches, so
    [parse_property] raises on this well-formed page for any capability;
    on an empty [<html></html>] page it returns every schema key. *)
Theorem parse_property_raises_on_bracket_src kk cap geo res :
  parse_property kk cap geo res demo_url doc_bad_img = None /\
  exists rec, parse_property kk cap geo res demo_url doc_empty = Some rec /\
              map fst rec = schema_keys.
Proof.
  split; [vm_compute; reflexivity|].
  eexists. split; [reflexivity|apply build_record_keys].
Qed.

(** ** Identifier rule *)

Lemma ueqb_eq a b : ueqb a b = true <-> a = b.
Proof.
  revert b. induction a as [|x a IH]; intros [|y b]; simpl; split; intros H;
    try discriminate; try reflexivity.
  - apply andb_prop in H as [H1 H2]. apply N.eqb_eq in H1. apply IH in H2. subst. reflexivity.
  - injection H as <- <-. rewrite N.eqb_refl. apply IH. reflexivity.
Qed.

Lemma strip_prefix_app p s : strip_prefix p (p ++ s) = Some s.
Proof. induction p as [|c p IH]; simpl; [reflexivity|]. rewrite N.eqb_refl. exact IH. Qed.

Lemma strip_prefix_some p s r : strip_prefix p s = Some r -> s = p ++ r.
Proof.
  revert s. induction p as [|c p IH]; intros [|x s]; simpl; intros H;
    try discriminate; try (injection H as <-; reflexivity).
  destruct (N.eqb_spec c x); [subst|discriminate]. rewrite (IH s H). reflexivity.
Qed.

Definition no_digit_head (t : ustr) : Prop :=
  match t with c :: _ => is_decimal c = false | [] => True end.

Lemma span_digits_spec s d t :
  span_digits s = (d, t) -> s = d ++ t /\ forallb is_decimal d = true /\ no_digit_head t.
Proof.
  revert d t. induction s as [|c s IH]; intros d t H; simpl in H.
  - injection H as <- <-. repeat split.
  - destruct (is_decimal c) eqn:Hc.
    + destruct (span_digits s) as [d' t'] eqn:E. injection H as <- <-.
      destruct (IH d' t' eq_refl) as (-> & H2 & H3). simpl. rewrite Hc, H2. auto.
    + injection H as <- <-. simpl. auto.
Qed.

Lemma span_digits_app d t :
  forallb is_decimal d = true -> no_digit_head t -> span_digits (d ++ t) = (d, t).
Proof.
  induction d as [|c d IH]; simpl; intros Hd Ht.
  - destruct t as [|c t]; simpl in *; [reflexivity|]. rewrite Ht. reflexivity.
  - apply andb_prop in Hd as [Hc Hd]. rewrite Hc, (IH Hd Ht). reflexivity.
Qed.

Lemma rent_at_iff s d1 d2 : rent_at s = Some (d1, d2) <-> rent_match s d1 d2.
Proof.
  unfold rent_at, rent_match. split.
  - destruct (strip_prefix (u "/rent/") s) as [r|] eqn:E; [|discriminate].
    apply strip_prefix_some in E. subst s.
    destruct (span_digits r) as [[|x d] [|c r2]] eqn:E1; try discriminate.
    destruct (N.eqb_spec c 47); [subst c|discriminate].
    destruct (span_digits r2) as [[|y e] t] eqn:E2; try discriminate.
    intros H; injection H as <- <-.
    destruct (span_digits_spec _ _ _ E1) as (-> & H1 & _).
    destruct (span_digits_spec _ _ _ E2) as (-> & H2 & H3).
    exists t. repeat split; auto.
  - intros (r & -> & H1 & H2 & H3).
    rewrite strip_prefix_app.
    destruct d1 as [|x d1]; [discriminate|]. destruct d2 as [|y d2]; [discriminate|].
    rewrite (span_digits_app (x :: d1) _ H1) by reflexivity.
    rewrite N.eqb_refl, (span_digits_app (y :: d2) _ H2 H3). reflexivity.
Qed.

Lemma search_app {A : Type} (f : ustr -> option A) p s :
  (forall p1 p2, p = p1 ++ p2 -> p2 <> [] -> f (p2 ++ s) = None) ->
  search f (p ++ s) = search f s.
Proof.
  induction p as [|c p IH]; intros H; simpl; [reflexivity|].
  assert (E := H [] (c :: p) eq_refl ltac:(discriminate)). simpl in E. rewrite E.
  apply IH. intros p1 p2 Ep Hp. apply (H (c :: p1) p2); [rewrite Ep; reflexivity|exact Hp].
Qed.

Lemma search_hit {A : Type} (f : ustr -> option A) s a : f s = Some a -> search f s = Some a.
Proof. destruct s; simpl; intros ->; reflexivity. Qed.

Lemma search_none {A : Type} (f : ustr -> option A) s :
  (forall p t, s = p ++ t -> f t = None) -> search f s = None.
Proof.
  induction s as [|c s IH]; intros H; simpl.
  - rewrite (H [] [] eq_refl). reflexivity.
  - rewrite (H [] (c :: s) eq_refl). apply IH. intros p t ->. apply (H (c :: p) t). reflexivity.
Qed.

Lemma search_some {A : Type} (f : ustr -> option A) s a :
  search f s = Some a -> exists p t, s = p ++ t /\ f t = Some a.
Proof.
  induction s as [|c s IH]; simpl; intros H.
  - destruct (f []) eqn:E; [|discriminate]. injection H as <-. exists [], []. auto.
  - destruct (f (c :: s)) eqn:E.
    + injection H as <-. exists [], (c :: s). auto.
    + destruct (IH H) as (p & t & -> & Ht). exists (c :: p), t. auto.
Qed.

Lemma findall_digits_acc_nil cur s :
  findall_digits_acc cur s = [] <-> cur = [] /\ forallb (fun c => negb (is_decimal c)) s = true.
Proof.
  revert cur. induction s as [|c s IH]; intros cur; simpl.
  - destruct cur; split; intros H; try discriminate; try tauto; destruct H; discriminate.
  - destruct (is_decimal c); simpl.
    + rewrite IH. split; intros [H1 H2]; discriminate.
    + destruct cur as [|x cur].
      * rewrite IH. tauto.
      * split; intros H; [discriminate|destruct H; discriminate].
Qed.

(** Claim C3, as the code has it: the first occurrence of [/rent/], a
    digit run, a slash and a digit run gives the identifier, the second
    run being the maximal digit run there even when the path segment goes
    on with other characters; without such an occurrence every digit run
    is joined with underscores; the result is null exactly when the URL
    has no digit. *)
Theorem extract_property_csv_id_rule :
  (forall p s d1 d2, rent_match s d1 d2 ->
     (forall p1 p2 e1 e2, p = p1 ++ p2 -> p2 <> [] -> ~ rent_match (p2 ++ s) e1 e2) ->
     extract_property_csv_id (p ++ s) = Some (d1 ++ u "_" ++ d2)) /\
  (forall url, (forall p s d1 d2, url = p ++ s -> ~ rent_match s d1 d2) ->
     extract_property_csv_id url =
       match findall_digits url with [] => None | nums => Some (join (u "_") nums) end) /\
  (forall url, extract_property_csv_id url = None <->
               forallb (fun c => negb (is_decimal c)) url = true) /\
  extract_property_csv_id (u "https://rent.tokyu-housing-lease.co.jp/rent/8034884/117024")
    = Some (u "8034884_117024") /\
  extract_property_csv_id (u "https://example.com/listing/99") = Some (u "99") /\
  extract_property_csv_id (u "https://example.com/rent/12/34x5") = Some (u "12_34") /\
  extract_property_csv_id (u "https://example.com/about") = None.
Proof.
  split; [|split; [|split]].
  - intros p s d1 d2 Hm Hfirst. unfold extract_property_csv_id.
    rewrite search_app.
    + rewrite (search_hit _ _ (d1, d2) (proj2 (rent_at_iff _ _ _) Hm)). reflexivity.
    + intros p1 p2 Ep Hp. destruct (rent_at (p2 ++ s)) as [[e1 e2]|] eqn:E; [|reflexivity].
      exfalso. apply (Hfirst p1 p2 e1 e2 Ep Hp). apply rent_at_iff. exact E.
  - intros url H. unfold extract_property_csv_id.
    rewrite search_none; [reflexivity|].
    intros p t Et. destruct (rent_at t) as [[e1 e2]|] eqn:E; [|reflexivity].
    exfalso. apply (H p t e1 e2 Et). apply rent_at_iff. exact E.
  - intros url. unfold extract_property_csv_id.
    destruct (search rent_at url) as [[d1 d2]|] eqn:E.
    + split; [discriminate|]. intros Hno.
      destruct (search_some _ _ _ E) as (p & t & -> & Ht).
      apply rent_at_iff in Ht as (r & -> & H1 & _).
      destruct d1 as [|x d1]; [discriminate|]. simpl in H1. apply andb_prop in H1 as [Hx _].
      rewrite forallb_app in Hno. apply andb_prop in Hno as [_ Hno].
      simpl in Hno. rewrite Hx in Hno. discriminate.
    + unfold findall_digits. destruct (findall_digits_acc [] url) eqn:F.
      * split; [intros _|intros _; reflexivity].
        apply (findall_digits_acc_nil [] url) in F as [_ F]. exact F.
      * split; intros H; [discriminate|].
        assert (F' : findall_digits_acc [] url = []) by (apply findall_digits_acc_nil; auto).
        rewrite F in F'. discriminate.
  - repeat split; vm_compute; reflexivity.
Qed.

(** Counterexample to claim C3: in [/rent/12/34x5] the segment after
    [12] is not numeric, so the rule as the claim states it falls back to
    all digit runs, [12_34_5]; the code returns [12_34]. *)
Lemma extract_property_csv_id_partial_segment :
  ~ (forall url, extract_property_csv_id url = csv_id_by_spec url).
Proof.
  intros H. specialize (H (u "https://example.com/rent/12/34x5")).
  vm_compute in H. discriminate H.
Qed.

(** ** Address segmentation *)

Lemma lazy_go_some P acc s m r :
  lazy_go P acc s = Some (m, r) ->
  exists q c, m = rev acc ++ q ++ [c] /\ s = q ++ c :: r /\ P c = true /\
              forall x, In x q -> x <> NL /\ P x = false.
Proof.
  revert acc. induction s as [|c s IH]; intros acc H; simpl in H; [discriminate|].
  destruct (P c) eqn:Pc.
  - injection H as <- <-. exists [], c. simpl.
    split; [reflexivity|]. split; [reflexivity|]. split; [exact Pc|]. contradiction.
  - destruct (N.eqb_spec c NL); [discriminate|].
    destruct (IH _ H) as (q & c' & -> & -> & H2 & H3).
    exists (c :: q), c'. simpl. rewrite <- !app_assoc.
    split; [reflexivity|]. split; [reflexivity|]. split; [exact H2|].
    intros x [<-|Hx]; [auto|apply H3; exact Hx].
Qed.

Lemma lazy_suffix_some P s m r :
  lazy_suffix P s = Some (m, r) -> s = m ++ r /\ shortest_ends_prefix P s m.
Proof.
  unfold lazy_suffix. destruct s as [|c0 s]; [discriminate|].
  destruct (N.eqb_spec c0 NL) as [|Hc0]; [discriminate|]. intros H.
  destruct (lazy_go_some _ _ _ _ _ H) as (q & c & -> & -> & Pc & Hq). simpl.
  assert (Hs : c0 :: q ++ c :: r = (c0 :: q ++ [c]) ++ r)
    by (simpl; rewrite <- app_assoc; reflexivity).
  split; [exact Hs|]. split.
  - split; [exists r; exact Hs|]. exists (c0 :: q), c. repeat split; auto; [discriminate|].
    intros x [<-|Hx]; [exact Hc0|apply Hq; exact Hx].
  - intros q' c' q1 x q2 E1 E2 Hq1.
    change (c0 :: q ++ [c]) with ((c0 :: q) ++ [c]) in E1.
    apply app_inj_tail in E1 as [<- _].
    destruct q1 as [|y q1]; [contradiction|]. injection E2 as _ E2.
    apply Hq. rewrite E2. apply in_or_app. right. left. reflexivity.
Qed.

Lemma lazy_go_none P acc q c r :
  P c = true -> (forall x, In x q -> x <> NL) -> lazy_go P acc (q ++ c :: r) <> None.
Proof.
  revert acc. induction q as [|x q IH]; intros acc Pc Hq; simpl.
  - rewrite Pc. discriminate.
  - destruct (P x); [discriminate|].
    destruct (N.eqb_spec x NL) as [E|_]; [exfalso; apply (Hq x); [left; reflexivity|exact E]|].
    apply IH; auto. intros y Hy. apply Hq. right. exact Hy.
Qed.

Lemma lazy_suffix_none P s :
  lazy_suffix P s = None -> forall p, ~ ends_prefix P s p.
Proof.
  intros H p ((r & ->) & q & c & -> & Hq & Pc & Hnl).
  destruct q as [|c0 q]; [contradiction|]. simpl in H.
  destruct (N.eqb_spec c0 NL) as [E|_]; [exfalso; apply (Hnl c0); [left; reflexivity|exact E]|].
  rewrite <- app_assoc in H. simpl in H.
  apply (lazy_go_none P [c0] q c r Pc); auto. intros x Hx. apply Hnl. right. exact Hx.
Qed.

Lemma split_address_district a : district (split_japanese_address_simple a) = None.
Proof.
  unfold split_japanese_address_simple.
  destruct (lazy_suffix is_pref_suffix _) as [[m1 r1]|];
    destruct (lazy_suffix is_city_suffix _) as [[m2 r2]|]; reflexivity.
Qed.

Lemma lstrip_split s : exists w, s = w ++ lstrip s /\ forallb is_space w = true.
Proof.
  induction s as [|c s IH]; simpl; [exists []; auto|].
  destruct (is_space c) eqn:E.
  - destruct IH as (w & Hw & Hs). exists (c :: w). simpl. rewrite E, <- Hw. auto.
  - exists []. auto.
Qed.

Lemma take_n_digits_some n s t :
  take_n_digits n s = Some t -> exists d, s = d ++ t /\ length d = n /\ forallb is_decimal d = true.
Proof.
  revert s. induction n as [|n IH]; intros s; simpl.
  - intros H. injection H as <-. exists []. auto.
  - destruct s as [|c s]; [discriminate|]. destruct (is_decimal c) eqn:Ec; [|discriminate].
    intros H. destruct (IH s H) as (d & -> & Hl & Hd). exists (c :: d).
    simpl. rewrite Ec, Hd, Hl. auto.
Qed.

Lemma strip_leading_postcode_cases s :
  strip_leading_postcode s = s \/
  exists w pc w', forallb is_space w = true /\ postcode_shape pc /\ forallb is_space w' = true /\
    s = w ++ pc ++ w' ++ strip_leading_postcode s.
Proof.
  unfold strip_leading_postcode.
  destruct (take_n_digits 3 (lstrip s)) as [[|c r]|] eqn:E3; auto.
  destruct (N.eqb_spec c 45) as [->|]; [|auto].
  destruct (take_n_digits 4 r) as [r'|] eqn:E4; [|auto]. right.
  destruct (lstrip_split s) as (w & Ew & Hw).
  destruct (take_n_digits_some _ _ _ E3) as (d3 & E3' & L3 & D3).
  destruct (take_n_digits_some _ _ _ E4) as (d4 & E4' & L4 & D4).
  destruct (lstrip_split r') as (w' & Ew' & Hw').
  exists w, (d3 ++ 45%N :: d4), w'. split; [exact Hw|]. split.
  - destruct d3 as [|a[|b[|c[|]]]]; try discriminate.
    destruct d4 as [|d[|e[|f[|g[|]]]]]; try discriminate.
    exists a, b, c, d, e, f, g. split; [reflexivity|].
    simpl in D3, D4 |- *. rewrite !andb_true_r in *.
    apply andb_prop in D3 as [Da D3]. apply andb_prop in D3 as [Db Dc].
    rewrite Da, Db, Dc. simpl. exact D4.
  - split; [exact Hw'|]. rewrite Ew at 1. rewrite E3', E4', Ew' at 1.
    rewrite <- !app_assoc. reflexivity.
Qed.

Lemma in_ranges_disjoint c r1 r2 :
  forallb (fun ab => forallb (fun xy => (snd ab <? fst xy)%N || (snd xy <? fst ab)%N) r2) r1
    = true ->
  in_ranges c r1 = true -> in_ranges c r2 = false.
Proof.
  intros Hd H1. unfold in_ranges in *. apply existsb_exists in H1 as ([a b] & Hin & Hab).
  apply andb_prop in Hab as [Ha Hb]. apply N.leb_le in Ha. apply N.leb_le in Hb.
  rewrite forallb_forall in Hd. specialize (Hd _ Hin). rewrite forallb_forall in Hd.
  apply not_true_is_false. intros H2. apply existsb_exists in H2 as ([x y] & Hxy & Hc).
  apply andb_prop in Hc as [Hx Hy]. apply N.leb_le in Hx. apply N.leb_le in Hy.
  specialize (Hd _ Hxy). simpl in Hd.
  apply orb_prop in Hd as [H|H]; apply N.ltb_lt in H; lia.
Qed.

Lemma decimal_not_space c : is_decimal c = true -> is_space c = false.
Proof. apply in_ranges_disjoint. vm_compute. reflexivity. Qed.

Lemma lstrip_app_space w s : forallb is_space w = true -> lstrip (w ++ s) = lstrip s.
Proof.
  induction w as [|c w IH]; simpl; [reflexivity|].
  intros H. apply andb_prop in H as [Hc Hw]. rewrite Hc. exact (IH Hw).
Qed.

Lemma strip_leading_postcode_match a w pc r :
  forallb is_space w = true -> postcode_shape pc -> a = w ++ pc ++ r ->
  strip_leading_postcode a = lstrip r.
Proof.
  intros Hw (a1 & b & c & d & e & f & g & -> & Hd) ->.
  unfold strip_leading_postcode. rewrite lstrip_app_space by exact Hw.
  cbn [forallb] in Hd. rewrite !andb_true_iff in Hd.
  destruct Hd as (H1 & H2 & H3 & H4 & H5 & H6 & H7 & _).
  cbn -[is_decimal is_space]. rewrite (decimal_not_space _ H1).
  cbn -[is_decimal is_space]. rewrite H1, H2, H3.
  cbn -[is_decimal is_space]. rewrite H4, H5, H6, H7. reflexivity.
Qed.

(** Claim C4, as the code has it: a leading [\s*ddd-dddd\s*] is removed,
    and nothing when the address does not start that way; the prefecture
    is the shortest prefix of at least two characters ending in
    都/道/府/県 with no newline before that character, none when there is
    no such prefix; the text after it, stripped (the whole text when there
    is no prefecture), is searched the same way for a city ending in
    市/区/郡/町/村; the text after the city, stripped (the text the city
    search ran on when there is no city), is chome_banchi, null when
    empty; district is always null. *)
Theorem split_japanese_address_rule :
  (forall a w pc r, forallb is_space w = true -> postcode_shape pc -> a = w ++ pc ++ r ->
     strip_leading_postcode a = lstrip r) /\
  (forall a, strip_leading_postcode a = a \/
     exists w pc r, forallb is_space w = true /\ postcode_shape pc /\ a = w ++ pc ++ r) /\
  (forall a, exists rest1 rest2,
     match prefecture (split_japanese_address_simple a) with
     | Some p => shortest_ends_prefix is_pref_suffix (strip_leading_postcode a) p /\
                 exists r, strip_leading_postcode a = p ++ r /\ rest1 = strip r
     | None => (forall p, ~ ends_prefix is_pref_suffix (strip_leading_postcode a) p) /\
               rest1 = strip_leading_postcode a
     end /\
     match city (split_japanese_address_simple a) with
     | Some c => shortest_ends_prefix is_city_suffix rest1 c /\
                 exists r, rest1 = c ++ r /\ rest2 = strip r
     | None => (forall c, ~ ends_prefix is_city_suffix rest1 c) /\ rest2 = rest1
     end /\
     chome_banchi (split_japanese_address_simple a) =
       match rest2 with [] => None | _ => Some rest2 end) /\
  (forall a, district (split_japanese_address_simple a) = None) /\
  split_japanese_address_simple (u "東京都渋谷区神宮前1-2-3") =
    {| prefecture := Some (u "東京都"); city := Some (u "渋谷区"); district := None;
       chome_banchi := Some (u "神宮前1-2-3") |} /\
  split_japanese_address_simple (u "渋谷区神宮前1-2-3") =
    {| prefecture := None; city := Some (u "渋谷区"); district := None;
       chome_banchi := Some (u "神宮前1-2-3") |} /\
  split_japanese_address_simple (u "〒 150-0001 東京都渋谷区") =
    {| prefecture := Some (u "〒 150-0001 東京都"); city := Some (u "渋谷区"); district := None;
       chome_banchi := None |} /\
  split_japanese_address_simple (u " 150-0001 東京都渋谷区") =
    {| prefecture := Some (u "東京都"); city := Some (u "渋谷区"); district := None;
       chome_banchi := None |} /\
  split_japanese_address_simple (u "都島区1-2") =
    {| prefecture := None; city := Some (u "都島区"); district := None;
       chome_banchi := Some (u "1-2") |}.
Proof.
  split; [exact strip_leading_postcode_match|]. split.
  { intros a. destruct (strip_leading_postcode_cases a) as [H|(w & pc & w' & Hw & Hpc & _ & E)];
      [left; exact H|right]. exists w, pc, (w' ++ strip_leading_postcode a). auto. }
  split; [|split; [exact split_address_district|]].
  - intros a. unfold split_japanese_address_simple.
    destruct (lazy_suffix is_pref_suffix (strip_leading_postcode a)) as [[m1 r1]|] eqn:E1.
    + destruct (lazy_suffix_some _ _ _ _ E1) as [Es1 Hs1].
      destruct (lazy_suffix is_city_suffix (strip r1)) as [[m2 r2]|] eqn:E2.
      * destruct (lazy_suffix_some _ _ _ _ E2) as [Es2 Hs2].
        exists (strip r1), (strip r2). cbn [prefecture city chome_banchi].
        split; [split; [exact Hs1|exists r1; auto]|].
        split; [split; [exact Hs2|exists r2; auto]|reflexivity].
      * exists (strip r1), (strip r1). cbn [prefecture city chome_banchi].
        split; [split; [exact Hs1|exists r1; auto]|].
        split; [split; [apply lazy_suffix_none; exact E2|reflexivity]|reflexivity].
    + destruct (lazy_suffix is_city_suffix (strip_leading_postcode a)) as [[m2 r2]|] eqn:E2.
      * destruct (lazy_suffix_some _ _ _ _ E2) as [Es2 Hs2].
        exists (strip_leading_postcode a), (strip r2). cbn [prefecture city chome_banchi].
        split; [split; [apply lazy_suffix_none; exact E1|reflexivity]|].
        split; [split; [exact Hs2|exists r2; auto]|reflexivity].
      * exists (strip_leading_postcode a), (strip_leading_postcode a).
        cbn [prefecture city chome_banchi].
        split; [split; [apply lazy_suffix_none; exact E1|reflexivity]|].
        split; [split; [apply lazy_suffix_none; exact E2|reflexivity]|reflexivity].
  - repeat split; vm_compute; reflexivity.
Qed.

(** Counterexample to claim C4: for the ward name [都島区] the leftmost
    prefix ending in a prefecture suffix is [都] itself, which the claim
    takes as prefecture; the code's [.+?] needs a character before the
    suffix, finds no prefecture and takes [都島区] as city. *)
Lemma split_japanese_address_single_char_prefix :
  ~ (forall a, prefecture (split_japanese_address_simple a) =
               prefix_through_first is_pref_suffix (strip_leading_postcode a)).
Proof.
  intros H. specialize (H (u "都島区1-2")). vm_compute in H. discriminate H.
Qed.

(** ** Building type *)

Lemma dget_in {V : Type} (k : ustr) (d : list (ustr * V)) v :
  dget k d = Some v -> In v (map snd d).
Proof.
  induction d as [|[k' v'] d IH]; simpl; [discriminate|].
  destruct (ueqb k k'); [intros H; injection H as ->; left; reflexivity|].
  intros H. right. exact (IH H).
Qed.

(** Claim C6, as the code has it: the value is stripped of surrounding
    whitespace and looked up in the fixed six-entry dictionary, so a value
    whose stripped form is a key (マンション, or  マンション with a leading
    space) gives that key's code; absent, empty, or unknown after
    stripping (e.g. 倉庫) gives null, and every result is one of the three
    codes. *)
Theorem normalize_building_type_closed :
  normalize_building_type_simple (Some (u "マンション")) = Some (u "apartment") /\
  normalize_building_type_simple (Some (u " マンション")) = Some (u "apartment") /\
  normalize_building_type_simple (Some (u "倉庫")) = None /\
  normalize_building_type_simple None = None /\
  (forall s k v, In (k, v) building_type_mapping -> strip s = k ->
     normalize_building_type_simple (Some s) = Some v) /\
  (forall s, dget (strip s) building_type_mapping = None ->
     normalize_building_type_simple (Some s) = None) /\
  (forall s v, normalize_building_type_simple s = Some v ->
     In v [u "apartment"; u "house"; u "townhouse"]).
Proof.
  split; [vm_compute; reflexivity|]. split; [vm_compute; reflexivity|].
  split; [vm_compute; reflexivity|]. split; [reflexivity|]. split; [|split].
  - intros s k v Hin Hs. destruct s as [|c s].
    + exfalso. vm_compute in Hs. subst k. vm_compute in Hin.
      repeat (destruct Hin as [Hin|Hin]; [discriminate Hin|]). exact Hin.
    + cbn [normalize_building_type_simple]. rewrite Hs. clear Hs.
      vm_compute in Hin.
      repeat (destruct Hin as [Hin|Hin];
              [injection Hin as <- <-; vm_compute; reflexivity|]).
      destruct Hin.
  - intros [|c s] H; [reflexivity|exact H].
  - intros [[|c s]|] v H; try discriminate. apply dget_in in H.
    vm_compute in H. vm_compute. intuition.
Qed.

(** Counterexample to claim C6: [" マンション"] is not a key of the
    dictionary, yet it normalizes to ["apartment"] because the value is
    stripped first. *)
Lemma normalize_building_type_padded_key :
  ~ (forall s, dget s building_type_mapping = None ->
       normalize_building_type_simple (Some s) = None).
Proof.
  intros H. specialize (H (u " マンション") ltac:(vm_compute; reflexivity)).
  vm_compute in H. discriminate H.
Qed.

(** ** Name romanization *)

Lemma in_ranges_false c rs :
  Forall (fun ab => (c < fst ab \/ snd ab < c)%N) rs -> in_ranges c rs = false.
Proof.
  induction 1 as [|[a b] rs Hab _ IH]; [reflexivity|].
  unfold in_ranges in *. simpl in *. rewrite IH, orb_false_r.
  destruct Hab as [H|H].
  - rewrite (proj2 (N.leb_gt a c) H). reflexivity.
  - rewrite (proj2 (N.leb_gt c b) H), andb_false_r. reflexivity.
Qed.

Lemma alpha_not_space c : is_ascii_alpha c = true -> is_space c = false.
Proof.
  unfold is_ascii_alpha. intros H.
  apply orb_prop in H as [H|H]; apply andb_prop in H as [H1 H2];
    apply N.leb_le in H1; apply N.leb_le in H2;
    unfold is_space; apply in_ranges_false; unfold space_ranges;
    repeat (apply Forall_cons; [simpl; lia|]); apply Forall_nil.
Qed.

Lemma existsb_alpha_spaces w :
  forallb is_space w = true -> existsb is_ascii_alpha w = false.
Proof.
  induction w as [|c w IH]; simpl; [reflexivity|]. intros H.
  apply andb_prop in H as [Hc Hw]. rewrite IH by exact Hw.
  destruct (is_ascii_alpha c) eqn:E; [|reflexivity].
  rewrite (alpha_not_space c E) in Hc. discriminate.
Qed.

Lemma existsb_alpha_strip s : existsb is_ascii_alpha (strip s) = existsb is_ascii_alpha s.
Proof.
  unfold strip, rstrip.
  destruct (lstrip_split s) as (w1 & E1 & H1).
  destruct (lstrip_split (rev (lstrip s))) as (w2 & E2 & H2).
  assert (E : lstrip s = rev (lstrip (rev (lstrip s))) ++ rev w2).
  { rewrite <- rev_app_distr, <- E2, rev_involutive. reflexivity. }
  rewrite E1 at 2. rewrite E at 2. rewrite !existsb_app.
  rewrite (existsb_alpha_spaces w1 H1).
  rewrite (existsb_alpha_spaces (rev w2)) by (rewrite forallb_forall in *; intros x Hx;
                                               apply H2; apply in_rev; exact Hx).
  rewrite orb_false_r. reflexivity.
Qed.

(** Claim C7, as the code has it: a non-empty name containing an ASCII
    letter comes back stripped of surrounding whitespace; without the
    converter every non-empty name comes back stripped, never null; an
    absent or empty name gives null. *)
Theorem to_english_name_rule :
  (forall kk cap s, s <> [] -> existsb is_ascii_alpha s = true ->
     to_english_name_simple kk cap (Some s) = Some (strip s)) /\
  (forall cap s, s <> [] -> to_english_name_simple None cap (Some s) = Some (strip s)) /\
  (forall kk cap, to_english_name_simple kk cap None = None /\
                  to_english_name_simple kk cap (Some []) = None) /\
  to_english_name_simple None (fun x => x) (Some (u "パークタワー")) = Some (u "パークタワー").
Proof.
  split; [|split; [|split]].
  - intros kk cap [|c s] Hne H; [contradiction|]. unfold to_english_name_simple.
    rewrite existsb_alpha_strip, H. reflexivity.
  - intros cap [|c s] Hne; [contradiction|]. unfold to_english_name_simple.
    destruct (existsb is_ascii_alpha (strip (c :: s))); reflexivity.
  - intros kk cap. split; reflexivity.
  - vm_compute. reflexivity.
Qed.

(** Counterexample to claim C7: the name [" Tower"] contains a Latin
    letter and is returned as ["Tower"], not unchanged; the same holds
    without the converter. *)
Lemma to_english_name_not_unchanged :
  ~ ((forall kk cap s, s <> [] -> existsb is_ascii_alpha s = true ->
        to_english_name_simple kk cap (Some s) = Some s) /\
     (forall cap s, s <> [] -> to_english_name_simple None cap (Some s) = Some s)).
Proof.
  intros [H _].
  specialize (H None (fun x => x) (u " Tower") ltac:(discriminate) ltac:(reflexivity)).
  vm_compute in H. discriminate H.
Qed.

(** ** Address text *)

Lemma startswith_app p t : startswith (p ++ t) p = true.
Proof. unfold startswith. rewrite strip_prefix_app. reflexivity. Qed.

Lemma before_first_prefix pats s : exists q, s = before_first pats s ++ q.
Proof.
  induction s as [|c s IH]; simpl; [exists []; reflexivity|].
  destruct (existsb (startswith (c :: s)) pats); [exists (c :: s); reflexivity|].
  destruct IH as [q Hq]. exists q. simpl. f_equal. exact Hq.
Qed.

Lemma before_first_no_label pats s x lab y :
  In lab pats -> lab <> [] -> before_first pats s <> x ++ lab ++ y.
Proof.
  revert x. induction s as [|c s IH]; intros x Hl Hne; simpl.
  - destruct x; [destruct lab; [contradiction|discriminate]|discriminate].
  - destruct (existsb (startswith (c :: s)) pats) eqn:E.
    + destruct x; [destruct lab; [contradiction|discriminate]|discriminate].
    + destruct x as [|x0 x]; simpl; intros H.
      * destruct (before_first_prefix pats s) as [q Hq].
        assert (Hs : c :: s = lab ++ (y ++ q)).
        { rewrite app_assoc, <- H. simpl. f_equal. exact Hq. }
        assert (Hw : existsb (startswith (c :: s)) pats = true).
        { apply existsb_exists. exists lab. split; [exact Hl|]. rewrite Hs. apply startswith_app. }
        rewrite Hw in E. discriminate.
      * injection H as _ H. exact (IH x Hl Hne H).
Qed.

Lemma rstrip_split s : exists w, s = rstrip s ++ w.
Proof.
  destruct (lstrip_split (rev s)) as (w & E & _). exists (rev w). unfold rstrip.
  rewrite <- rev_app_distr, <- E, rev_involutive. reflexivity.
Qed.

Lemma strip_infix s : exists a b, s = a ++ strip s ++ b.
Proof.
  destruct (lstrip_split s) as (a & Ea & _).
  destruct (rstrip_split (lstrip s)) as (b & Eb).
  exists a, b. unfold strip. rewrite <- Eb. exact Ea.
Qed.

Lemma take_line_no_nl n s : ~ In NL (take_line n s).
Proof.
  revert s. induction n as [|n IH]; intros [|c s]; simpl; try tauto.
  destruct (N.eqb c NL) eqn:E; simpl; [tauto|].
  intros [H|H]; [subst c; rewrite N.eqb_refl in E; discriminate|exact (IH s H)].
Qed.

Lemma postcode_prefix_no_nl s m r : postcode_prefix s = Some (m, r) -> ~ In NL m.
Proof.
  unfold postcode_prefix.
  destruct s as [|a[|b[|c[|h[|d[|e[|f[|g r']]]]]]]]; try discriminate.
  destruct (forallb is_decimal [a; b; c; d; e; f; g] && N.eqb h 45) eqn:E; [|discriminate].
  intros Hm. injection Hm as <- _.
  apply andb_prop in E as [E Eh]. apply N.eqb_eq in Eh. subst h.
  assert (Hd : forall x, In x [a; b; c; d; e; f; g] -> x <> NL).
  { intros x Hx ->. rewrite forallb_forall in E. specialize (E _ Hx).
    vm_compute in E. discriminate. }
  intros Hin. simpl in Hin.
  repeat destruct Hin as [Hin|Hin]; try contradiction;
    try (unfold NL in Hin; discriminate);
    (eapply Hd; [|exact Hin]; simpl; tauto).
Qed.

Lemma address_line_no_nl t line : address_line_at t = Some line -> ~ In NL line.
Proof.
  unfold address_line_at. destruct (postcode_prefix t) as [[m r]|] eqn:E; [|discriminate].
  intros H. injection H as <-. intros Hin. apply in_app_or in Hin as [Hin|Hin].
  - exact (postcode_prefix_no_nl _ _ _ E Hin).
  - exact (take_line_no_nl 200 r Hin).
Qed.

Lemma postcode_prefix_some t m r : postcode_prefix t = Some (m, r) -> postcode_shape m /\ t = m ++ r.
Proof.
  unfold postcode_prefix.
  destruct t as [|a[|b[|c[|h[|d[|e[|f[|g r']]]]]]]]; try discriminate.
  destruct (forallb is_decimal [a; b; c; d; e; f; g] && N.eqb h 45) eqn:E; [|discriminate].
  intros H. injection H as <- <-. apply andb_prop in E as [E Eh]. apply N.eqb_eq in Eh.
  subst h. split; [|reflexivity]. exists a, b, c, d, e, f, g. auto.
Qed.

Lemma postcode_prefix_shape pc r : postcode_shape pc -> postcode_prefix (pc ++ r) = Some (pc, r).
Proof.
  intros (a & b & c & d & e & f & g & -> & Hd). unfold postcode_prefix. cbn [app].
  cbv beta iota. rewrite Hd. reflexivity.
Qed.

Lemma take_line_exact n w r' :
  ~ In NL w -> length w <= n -> (length w = n \/ r' = [] \/ exists r'', r' = NL :: r'') ->
  take_line n (w ++ r') = w.
Proof.
  revert n. induction w as [|c w IH]; intros n Hw Hl Hend; simpl.
  - destruct n as [|n]; [reflexivity|].
    destruct Hend as [H|[->|(r'' & ->)]]; [simpl in H; discriminate|reflexivity|reflexivity].
  - destruct n as [|n]; [simpl in Hl; lia|]. cbn [take_line app].
    destruct (N.eqb_spec c NL) as [E|_]; [exfalso; apply Hw; left; exact E|].
    f_equal. apply IH.
    + intros H. apply Hw. right. exact H.
    + simpl in Hl. lia.
    + simpl in Hend. destruct Hend as [H|H]; [left; lia|right; exact H].
Qed.

Lemma startswith_true s p : startswith s p = true <-> exists z, s = p ++ z.
Proof.
  unfold startswith. split.
  - destruct (strip_prefix p s) as [z|] eqn:E; [|discriminate].
    intros _. exists z. exact (strip_prefix_some _ _ _ E).
  - intros (z & ->). rewrite strip_prefix_app. reflexivity.
Qed.

Lemma before_first_exact pats cut rest :
  (forall x y, cut = x ++ y -> y <> [] -> existsb (startswith (y ++ rest)) pats = false) ->
  (rest = [] \/ existsb (startswith rest) pats = true) ->
  before_first pats (cut ++ rest) = cut.
Proof.
  induction cut as [|c cut IH]; intros Hin Hend; simpl.
  - destruct Hend as [->|H]; [reflexivity|].
    destruct rest as [|x r]; [reflexivity|]. simpl. rewrite H. reflexivity.
  - pose proof (Hin [] (c :: cut) eq_refl ltac:(discriminate)) as H0.
    change ((c :: cut) ++ rest) with (c :: cut ++ rest) in H0. rewrite H0. f_equal.
    apply IH; [|exact Hend]. intros x y Hx Hy. apply (Hin (c :: x) y); [|exact Hy].
    rewrite Hx. reflexivity.
Qed.

(** Claim C8, as the code has it: the address text is computed from the
    newline-joined page text alone (no selector is consulted): the first
    [ddd-dddd] anywhere in it, with the rest of its line up to 200
    characters, cut before the first TEL/Fax/FAX/電話 and stripped; a page
    without such a pattern, or whose cut line strips to nothing, gives
    null; the result never contains a newline or a telephone label. *)
Theorem extract_address_text_rule :
  (forall s1 s2, get_text [NL] true s1 = get_text [NL] true s2 ->
     extract_address_text_simple s1 = extract_address_text_simple s2) /\
  (forall soup p pc r w r' cut rest,
     get_text [NL] true soup = p ++ pc ++ r -> postcode_shape pc ->
     (forall p1 p2 pc' r2, p = p1 ++ p2 -> p2 <> [] -> postcode_shape pc' ->
        p2 ++ pc ++ r <> pc' ++ r2) ->
     r = w ++ r' -> ~ In NL w -> length w <= 200 ->
     (length w = 200 \/ r' = [] \/ exists r'', r' = NL :: r'') ->
     pc ++ w = cut ++ rest ->
     (forall x y lab z, cut = x ++ y -> y <> [] -> In lab tel_labels -> y ++ rest <> lab ++ z) ->
     (rest = [] \/ exists lab z, In lab tel_labels /\ rest = lab ++ z) ->
     extract_address_text_simple soup = match strip cut with [] => None | l => Some l end) /\
  (forall soup, (forall p t, get_text [NL] true soup = p ++ t -> postcode_prefix t = None) ->
     extract_address_text_simple soup = None) /\
  (forall soup l, extract_address_text_simple soup = Some l ->
     l <> [] /\ ~ In NL l /\ forall x y lab, In lab tel_labels -> l <> x ++ lab ++ y) /\
  extract_address_text_simple doc_address_tel = Some (u "150-0001 東京都渋谷区neighborhood") /\
  extract_address_text_simple doc_address_label = Some (u "150-0001 東京都渋谷区") /\
  extract_address_text_simple doc_address_div = None.
Proof.
  split; [|split; [|split; [|split; [|split; [|split]]]]].
  - intros s1 s2 H. unfold extract_address_text_simple. rewrite H. reflexivity.
  - intros soup p pc r w r' cut rest Hpage Hpc Hfirst Hr Hnl Hlen Hend Hcut Hlab Hrest.
    unfold extract_address_text_simple. cbv zeta. rewrite Hpage, search_app.
    + rewrite (search_hit address_line_at (pc ++ r) (pc ++ take_line 200 r)).
      2:{ unfold address_line_at. rewrite (postcode_prefix_shape _ _ Hpc). reflexivity. }
      rewrite Hr, (take_line_exact 200 w r' Hnl Hlen Hend), Hcut.
      rewrite before_first_exact; [reflexivity| |].
      * intros x y Hx Hy. apply not_true_is_false. intros H.
        apply existsb_exists in H as (lab & Hl & H). apply startswith_true in H as (z & Hz).
        exact (Hlab x y lab z Hx Hy Hl Hz).
      * destruct Hrest as [->|(lab & z & Hl & ->)]; [left; reflexivity|right].
        apply existsb_exists. exists lab. split; [exact Hl|]. apply startswith_true. eauto.
    + intros p1 p2 Hp Hne. unfold address_line_at.
      destruct (postcode_prefix (p2 ++ pc ++ r)) as [[m r2]|] eqn:E; [|reflexivity].
      exfalso. destruct (postcode_prefix_some _ _ _ E) as [Hm Em].
      exact (Hfirst p1 p2 m r2 Hp Hne Hm Em).
  - intros soup H. unfold extract_address_text_simple. rewrite search_none; [reflexivity|].
    intros p t Ht. unfold address_line_at. rewrite (H p t Ht). reflexivity.
  - intros soup l. unfold extract_address_text_simple.
    destruct (search address_line_at (get_text [NL] true soup)) as [line|] eqn:Es;
      [|discriminate].
    destruct (search_some _ _ _ Es) as (p & t & _ & Ht).
    assert (Hnl := address_line_no_nl _ _ Ht).
    destruct (before_first_prefix tel_labels line) as [q Hq].
    destruct (strip_infix (before_first tel_labels line)) as (a & b & Hab).
    destruct (strip (before_first tel_labels line)) as [|c0 l0] eqn:El; [discriminate|].
    intros H. injection H as <-. split; [discriminate|]. split.
    + intros Hin. apply Hnl. rewrite Hq, Hab. apply in_or_app. left.
      apply in_or_app. right. apply in_or_app. left. exact Hin.
    + intros x y lab Hl Hx.
      apply (before_first_no_label tel_labels line (a ++ x) lab (y ++ b) Hl).
      * simpl in Hl. repeat destruct Hl as [Hl|Hl]; try contradiction; subst lab; discriminate.
      * rewrite Hab, Hx. rewrite !app_assoc. reflexivity.
  - vm_compute. reflexivity.
  - vm_compute. reflexivity.
  - vm_compute. reflexivity.
Qed.

(** Counterexample to claim C8: on a page whose [.address] element holds
    an address without a postal code, the selector-first procedure of the
    claim returns that text, while the source returns null. *)
Lemma extract_address_text_ignores_selectors :
  ~ (forall soup, extract_address_text_simple soup = extract_address_text_by_spec soup).
Proof.
  intros H. specialize (H doc_address_div). vm_compute in H. discriminate H.
Qed.

(** ** Stations *)

Lemma line_station_go_sep sep acc s p : line_station_go sep acc s = Some p -> In sep s.
Proof.
  revert acc. induction s as [|c r IH]; intros acc; simpl; [discriminate|].
  destruct (N.eqb c NL); [discriminate|].
  destruct r as [|d r']; [discriminate|].
  destruct (N.eqb d sep) eqn:E.
  - intros _. apply N.eqb_eq in E. subst d. right. left. reflexivity.
  - intros H. right. exact (IH _ H).
Qed.

Lemma search_line_station_none sep t :
  ~ In sep t -> search (line_station_at sep) t = None.
Proof.
  intros Hn. apply search_none. intros p t' ->.
  destruct (line_station_at sep t') as [q|] eqn:E; [|reflexivity].
  exfalso. apply Hn. apply in_or_app. right. exact (line_station_go_sep _ _ _ _ E).
Qed.

Lemma lstrip_keeps_last q c : is_space c = false -> exists q', lstrip (q ++ [c]) = q' ++ [c].
Proof.
  intros Hc. induction q as [|x q IH]; simpl.
  - rewrite Hc. exists []. reflexivity.
  - destruct (is_space x); [exact IH|]. exists (x :: q). reflexivity.
Qed.

Lemma strip_keeps_last q c : is_space c = false -> exists q', strip (q ++ [c]) = q' ++ [c].
Proof.
  intros Hc. destruct (lstrip_keeps_last q c Hc) as [q' E].
  exists q'. unfold strip, rstrip. rewrite E, rev_app_distr. simpl. rewrite Hc.
  simpl. rewrite rev_involutive. reflexivity.
Qed.

Lemma line_station_go_eki sep acc s l st :
  line_station_go sep acc s = Some (l, st) -> exists q, st = q ++ u "駅".
Proof.
  revert acc. induction s as [|c r IH]; intros acc; simpl; [discriminate|].
  destruct (N.eqb c NL); [discriminate|].
  destruct r as [|d r']; [discriminate|].
  destruct (N.eqb d sep).
  - destruct (lazy_suffix is_eki r') as [[st0 rest]|] eqn:El; [|apply IH].
    intros H. injection H as _ <-.
    destruct (lazy_suffix_some _ _ _ _ El) as [_ [(_ & q & c' & -> & _ & Pc & _) _]].
    unfold is_eki, mem in Pc. simpl in Pc. rewrite orb_false_r in Pc.
    apply N.eqb_eq in Pc. subst c'. exists q. reflexivity.
  - apply IH.
Qed.

Lemma station_item_eki t st : st_station (station_item t) = Some st -> exists q, st = q ++ u "駅".
Proof.
  unfold station_item. simpl.
  assert (Hgo : forall sep p, search (line_station_at sep) t = Some p ->
                  exists q, snd p = q ++ u "駅").
  { intros sep [l s] H. destruct (search_some _ _ _ H) as (pre & t' & _ & Ht).
    exact (line_station_go_eki _ _ _ _ _ Ht). }
  assert (Hk : forall p : ustr * ustr, (exists q, snd p = q ++ u "駅") ->
                 Some (strip (snd p)) = Some st -> exists q, st = q ++ u "駅").
  { intros p [q Hq] H. injection H as <-. rewrite Hq.
    apply strip_keeps_last. vm_compute. reflexivity. }
  destruct (search (line_station_at 65295%N) t) as [p|] eqn:E1.
  - apply Hk. exact (Hgo _ _ E1).
  - destruct (search (line_station_at 47%N) t) as [p|] eqn:E2; [|discriminate].
    apply Hk. exact (Hgo _ _ E2).
Qed.

Lemma stations_loop_first limit pre x post :
  Forall (fun p => ueqb (get_text [] true (fst p)) (u "交通") = false) pre ->
  ueqb (get_text [] true (fst x)) (u "交通") = true ->
  stations_loop limit (pre ++ x :: post) = stations_loop limit [x].
Proof.
  intros Hpre Hx. induction Hpre as [|[dt sibs] pre Hp _ IH]; simpl.
  - destruct x as [dt sibs]. simpl in Hx. rewrite Hx. reflexivity.
  - simpl in Hp. rewrite Hp. exact IH.
Qed.

Lemma prefix_eq_len (a b x y : ustr) : a ++ x = b ++ y -> length a = length b -> a = b /\ x = y.
Proof.
  intros E L. destruct (app_eq_app _ _ _ _ E) as (l & [[Ha Hy]|[Hb Hx]]).
  - subst a. rewrite length_app in L. destruct l; [|simpl in L; lia].
    rewrite app_nil_r. simpl in Hy. auto.
  - subst b. rewrite length_app in L. destruct l; [|simpl in L; lia].
    rewrite app_nil_r. simpl in Hx. auto.
Qed.

Lemma shortest_longer P (s1 s2 q1 q2 l : ustr) c1 c2 x :
  (forall q c q1' y q2', q1 ++ [c1] = q ++ [c] -> q = q1' ++ y :: q2' -> q1' <> [] -> P y = false) ->
  P c2 = true -> q2 <> [] ->
  q1 ++ [c1] = (q2 ++ [c2]) ++ l ++ [x] -> False.
Proof.
  intros M P2 Hq2 H. rewrite app_assoc in H. apply app_inj_tail in H as [H _].
  rewrite <- app_assoc in H. simpl in H.
  rewrite (M q1 c1 q2 c2 l eq_refl H Hq2) in P2. discriminate.
Qed.

Lemma shortest_unique P s p1 p2 :
  shortest_ends_prefix P s p1 -> shortest_ends_prefix P s p2 -> p1 = p2.
Proof.
  intros [[[r1 E1] (q1 & c1 & -> & Hq1 & P1 & _)] M1]
         [[[r2 E2] (q2 & c2 & -> & Hq2 & P2 & _)] M2].
  rewrite E1 in E2. destruct (app_eq_app _ _ _ _ E2) as (l & [[H _]|[H _]]).
  - destruct l as [|x l _] using rev_ind; [rewrite app_nil_r in H; exact H|].
    exfalso. exact (shortest_longer P s s q1 q2 l c1 c2 x M1 P2 Hq2 H).
  - destruct l as [|x l _] using rev_ind; [rewrite app_nil_r in H; symmetry; exact H|].
    exfalso. exact (shortest_longer P s s q2 q1 l c2 c1 x M2 P1 Hq1 H).
Qed.

Lemma lsm_cons sep c s g :
  c <> NL -> line_station_match sep s g -> line_station_match sep (c :: s) (c :: g).
Proof.
  intros Hc (r & -> & _ & Hnl & Hst). exists r. split; [reflexivity|].
  split; [discriminate|]. split; [|exact Hst].
  intros [H|H]; [exact (Hc H)|exact (Hnl H)].
Qed.

Lemma lsm_uncons sep c s g :
  line_station_match sep (c :: s) g ->
  c <> NL /\
  ((g = [c] /\ exists r, s = sep :: r /\ exists st, ends_prefix is_eki r st) \/
   (exists g0, g = c :: g0 /\ line_station_match sep s g0)).
Proof.
  intros (r & E & Hne & Hnl & Hst). destruct g as [|x g0]; [contradiction|].
  injection E as <- E. split; [intros H; apply Hnl; left; exact H|].
  destruct g0 as [|y g1].
  - left. split; [reflexivity|]. exists r. auto.
  - right. exists (y :: g1). split; [reflexivity|]. exists r.
    split; [exact E|]. split; [discriminate|]. split; [|exact Hst].
    intros H. apply Hnl. right. exact H.
Qed.

Lemma line_station_go_sound sep acc s l st :
  line_station_go sep acc s = Some (l, st) ->
  exists g r, l = rev acc ++ g /\ line_station_match sep s g /\ s = g ++ sep :: r /\
    shortest_ends_prefix is_eki r st /\
    forall g', line_station_match sep s g' -> length g <= length g'.
Proof.
  revert acc. induction s as [|c s0 IH]; intros acc H; simpl in H; [discriminate|].
  destruct (N.eqb_spec c NL) as [|Hc]; [discriminate|].
  destruct s0 as [|d r']; [discriminate|].
  assert (Hstep : line_station_go sep (c :: acc) (d :: r') = Some (l, st) ->
    (forall r'', d :: r' = sep :: r'' -> forall st', ~ ends_prefix is_eki r'' st') ->
    exists g r, l = rev acc ++ g /\ line_station_match sep (c :: d :: r') g /\
      c :: d :: r' = g ++ sep :: r /\ shortest_ends_prefix is_eki r st /\
      forall g', line_station_match sep (c :: d :: r') g' -> length g <= length g').
  { intros Hgo Hno. destruct (IH _ Hgo) as (g0 & r0 & -> & Hm & Es & Hsh & Hmin).
    exists (c :: g0), r0. split; [simpl; rewrite <- app_assoc; reflexivity|].
    split; [exact (lsm_cons _ _ _ _ Hc Hm)|]. split; [rewrite Es; reflexivity|].
    split; [exact Hsh|]. intros g' Hg'.
    destruct (lsm_uncons _ _ _ _ Hg') as [_ [(_ & r'' & Er & st' & Hst)|(g1 & -> & Hg1)]].
    - exfalso. exact (Hno r'' Er st' Hst).
    - simpl. specialize (Hmin g1 Hg1). lia. }
  destruct (N.eqb_spec d sep) as [->|Hd].
  - destruct (lazy_suffix is_eki r') as [[st0 rest]|] eqn:El.
    + injection H as <- <-. destruct (lazy_suffix_some _ _ _ _ El) as [_ Hsh].
      exists [c], r'. split; [reflexivity|].
      split; [exists r'; repeat split; [discriminate|intros [H|[]]; exact (Hc H)|exists st0; exact (proj1 Hsh)]|].
      split; [reflexivity|]. split; [exact Hsh|].
      intros g' (r2 & _ & Hne & _). destruct g'; [contradiction|]. simpl. lia.
    + apply Hstep; [exact H|]. intros r'' Er st' Hst. injection Er as <-.
      exact (lazy_suffix_none _ _ El st' Hst).
  - apply Hstep; [exact H|]. intros r'' Er. injection Er as Er _. contradiction.
Qed.

Lemma line_station_go_complete sep acc s g :
  line_station_match sep s g -> line_station_go sep acc s <> None.
Proof.
  revert acc g. induction s as [|c s0 IH]; intros acc g Hm.
  - destruct Hm as (r & E & Hne & _). destruct g; [contradiction|discriminate].
  - destruct (lsm_uncons _ _ _ _ Hm) as [Hc Hcase]. simpl.
    destruct (N.eqb_spec c NL) as [E|_]; [contradiction|].
    destruct Hcase as [(_ & r & -> & st & Hst)|(g0 & _ & Hg0)].
    + rewrite N.eqb_refl. destruct (lazy_suffix is_eki r) as [[st0 rest]|] eqn:El;
        [discriminate|].
      exfalso. exact (lazy_suffix_none _ _ El st Hst).
    + destruct s0 as [|d r'].
      * destruct Hg0 as (r & E & _). destruct g0; discriminate.
      * destruct (N.eqb d sep); [destruct (lazy_suffix is_eki r') as [[st0 rest]|];
          [discriminate|]|]; exact (IH _ _ Hg0).
Qed.

Lemma search_line_station_first sep t g1 g2 :
  first_line_station sep t g1 g2 -> search (line_station_at sep) t = Some (g1, g2).
Proof.
  intros (pre & s & r & -> & Hm & Hmin & Es & Hsh & Hfirst). rewrite search_app.
  - apply search_hit. unfold line_station_at.
    destruct (line_station_go sep [] s) as [[l st]|] eqn:E.
    + destruct (line_station_go_sound _ _ _ _ _ E) as (g & r' & El & Hg & Es' & Hsh' & Hmin').
      simpl in El. subst l.
      assert (L : length g1 = length g) by (specialize (Hmin g Hg); specialize (Hmin' g1 Hm); lia).
      rewrite Es in Es'. destruct (prefix_eq_len _ _ _ _ Es' L) as [<- Er].
      injection Er as <-. rewrite (shortest_unique _ _ _ _ Hsh Hsh'). reflexivity.
    + exfalso. exact (line_station_go_complete sep [] s g1 Hm E).
  - intros p1 p2 Hp Hne. unfold line_station_at.
    destruct (line_station_go sep [] (p2 ++ s)) as [[l st]|] eqn:E; [|reflexivity].
    exfalso. destruct (line_station_go_sound _ _ _ _ _ E) as (g & _ & _ & Hg & _).
    exact (Hfirst p1 p2 g Hp Hne Hg).
Qed.

Lemma search_line_station_nomatch sep t :
  (forall p s g, t = p ++ s -> ~ line_station_match sep s g) ->
  search (line_station_at sep) t = None.
Proof.
  intros H. apply search_none. intros p s Es. unfold line_station_at.
  destruct (line_station_go sep [] s) as [[l st]|] eqn:E; [|reflexivity].
  exfalso. destruct (line_station_go_sound _ _ _ _ _ E) as (g & _ & _ & Hg & _).
  exact (H p s g Es Hg).
Qed.

Lemma space_not_decimal c : is_space c = true -> is_decimal c = false.
Proof.
  intros H. destruct (is_decimal c) eqn:E; [|reflexivity].
  rewrite (decimal_not_space _ E) in H. discriminate.
Qed.

Lemma walk_at_match s d : walk_at s = Some d <-> walk_match s d.
Proof.
  split.
  - unfold walk_at. destruct (strip_prefix (u "徒歩") s) as [r|] eqn:E1; [|discriminate].
    apply strip_prefix_some in E1.
    destruct (span_digits (lstrip r)) as [d0 r2] eqn:E2.
    destruct (span_digits_spec _ _ _ E2) as (Hr & Hd & _).
    destruct (lstrip_split r) as (w1 & Ew1 & Hw1).
    destruct (lstrip_split r2) as (w2 & Ew2 & Hw2).
    destruct d0 as [|x d0]; [discriminate|].
    destruct (lstrip r2) as [|c r3] eqn:E3; [discriminate|].
    destruct (mem c (u "分")) eqn:Ec; [|discriminate]. intros H. injection H as <-.
    assert (Hc : c = 20998%N).
    { unfold mem in Ec. simpl in Ec. rewrite orb_false_r in Ec. apply N.eqb_eq. exact Ec. }
    subst c. exists w1, w2, r3. split.
    + rewrite E1, Ew1, Hr, Ew2. reflexivity.
    + split; [exact Hw1|]. split; [exact Hw2|]. split; [discriminate|exact Hd].
  - intros (w1 & w2 & r & -> & Hw1 & Hw2 & Hne & Hd). unfold walk_at.
    rewrite strip_prefix_app, lstrip_app_space by exact Hw1.
    destruct d as [|x d]; [contradiction|].
    assert (Hx : is_decimal x = true) by (simpl in Hd; apply andb_prop in Hd as [Hx _]; exact Hx).
    assert (Hl : lstrip ((x :: d) ++ w2 ++ u "分" ++ r) = (x :: d) ++ w2 ++ u "分" ++ r)
      by (cbn [app lstrip]; rewrite (decimal_not_space _ Hx); reflexivity).
    rewrite Hl, span_digits_app; [|exact Hd|].
    + rewrite lstrip_app_space by exact Hw2. reflexivity.
    + destruct w2 as [|y w2]; [reflexivity|]. simpl in Hw2. apply andb_prop in Hw2 as [Hy _].
      exact (space_not_decimal _ Hy).
Qed.

Lemma search_walk_first t d : first_walk t d -> search walk_at t = Some d.
Proof.
  intros (pre & s & -> & Hm & Hfirst). rewrite search_app.
  - apply search_hit. apply walk_at_match. exact Hm.
  - intros p1 p2 Hp Hne. destruct (walk_at (p2 ++ s)) as [d'|] eqn:E; [|reflexivity].
    exfalso. apply walk_at_match in E. exact (Hfirst p1 p2 d' Hp Hne E).
Qed.

Lemma search_walk_nomatch t :
  (forall p s d, t = p ++ s -> ~ walk_match s d) -> search walk_at t = None.
Proof.
  intros H. apply search_none. intros p s Es.
  destruct (walk_at s) as [d|] eqn:E; [|reflexivity].
  exfalso. apply walk_at_match in E. exact (H p s d Es E).
Qed.

Lemma collect_items_count limit lis result :
  length result < Nat.max 1 limit ->
  length (collect_items limit lis result) = Nat.min (length result + length lis) (Nat.max 1 limit).
Proof.
  revert result. induction lis as [|li lis IH]; intros result H; cbn [collect_items length].
  - lia.
  - rewrite length_app. cbn [length].
    destruct (Nat.leb limit (length result + 1)) eqn:E.
    + apply Nat.leb_le in E. rewrite length_app. cbn [length]. lia.
    + apply Nat.leb_gt in E. rewrite IH; rewrite ?length_app; cbn [length]; lia.
Qed.

(** Claim C9, as the code has it: only the first [dt] whose stripped text
    is 交通 is used, and the number of items is that of the [li] elements
    of the [dd] after it, capped at [limit], or at one when [limit] is 0;
    per item, [(.+?)／(.+?駅)] is searched first and [(.+?)/(.+?駅)] only
    when it has no match: line and station are the stripped groups of the
    leftmost match (shortest groups), both null when neither pattern
    matches, so a separator must be followed by text ending in 駅; the
    walk minutes are the digits of the leftmost [徒歩\s*(\d+)\s*分],
    whether or not the split succeeded. *)
Theorem extract_stations_rule :
  (forall soup limit pre x post,
     filter (fun p => is_tag (u "dt") (fst p)) (with_next_siblings soup) = pre ++ x :: post ->
     Forall (fun p => ueqb (get_text [] true (fst p)) (u "交通") = false) pre ->
     ueqb (get_text [] true (fst x)) (u "交通") = true ->
     extract_stations_basic soup limit = stations_loop limit [x]) /\
  (forall limit dt sibs, ueqb (get_text [] true dt) (u "交通") = true ->
     length (stations_loop limit [(dt, sibs)]) =
       match find (is_tag (u "dd")) sibs with
       | None => 0
       | Some dd => Nat.min (length (select (STag (u "li")) dd)) (Nat.max 1 limit)
       end) /\
  (forall soup limit, length (extract_stations_basic soup limit) <= Nat.max 1 limit) /\
  (forall t g1 g2, first_line_station 65295%N t g1 g2 ->
     st_line (station_item t) = Some (strip g1) /\ st_station (station_item t) = Some (strip g2)) /\
  (forall t g1 g2, (forall p s g, t = p ++ s -> ~ line_station_match 65295%N s g) ->
     first_line_station 47%N t g1 g2 ->
     st_line (station_item t) = Some (strip g1) /\ st_station (station_item t) = Some (strip g2)) /\
  (forall t, (forall p s g, t = p ++ s -> ~ line_station_match 65295%N s g) ->
     (forall p s g, t = p ++ s -> ~ line_station_match 47%N s g) ->
     st_line (station_item t) = None /\ st_station (station_item t) = None) /\
  (forall t, ~ In 65295%N t -> ~ In 47%N t ->
     st_line (station_item t) = None /\ st_station (station_item t) = None) /\
  (forall t st, st_station (station_item t) = Some st -> exists q, st = q ++ u "駅") /\
  (forall t d, first_walk t d -> st_walk (station_item t) = Some d) /\
  (forall t, (forall p s d, t = p ++ s -> ~ walk_match s d) -> st_walk (station_item t) = None) /\
  extract_stations_basic doc_two_access 5 =
    [{| st_line := Some (u "東急東横線"); st_station := Some (u "渋谷駅");
        st_walk := Some (u "7") |}] /\
  length (extract_stations_basic doc_two_access 0) = 1 /\
  station_item (u "JR山手線/原宿駅 徒歩10分") =
    {| st_line := Some (u "JR山手線"); st_station := Some (u "原宿駅"); st_walk := Some (u "10") |} /\
  station_item (u "JR山手線/渋谷 徒歩5分") =
    {| st_line := None; st_station := None; st_walk := Some (u "5") |} /\
  station_item (u "バス停まで徒歩 3 分") =
    {| st_line := None; st_station := None; st_walk := Some (u "3") |}.
Proof.
  split; [|split; [|split; [|split; [|split; [|split; [|split; [|split; [|split; [|split]]]]]]]]].
  - intros soup limit pre x post Hf Hpre Hx. unfold extract_stations_basic.
    rewrite Hf. exact (stations_loop_first limit pre x post Hpre Hx).
  - intros limit dt sibs Hdt. cbn [stations_loop]. rewrite Hdt.
    destruct (find (is_tag (u "dd")) sibs) as [dd|]; [|reflexivity].
    rewrite collect_items_count by (cbn [length]; lia). reflexivity.
  - intros soup limit. unfold extract_stations_basic.
    induction (filter _ _) as [|[dt sibs] r IH]; cbn [stations_loop length]; [lia|].
    destruct (ueqb (get_text [] true dt) (u "交通")); [|exact IH].
    destruct (find (is_tag (u "dd")) sibs); [|cbn [length]; lia].
    rewrite collect_items_count by (cbn [length]; lia). lia.
  - intros t g1 g2 H. unfold station_item. cbn [st_line st_station].
    rewrite (search_line_station_first _ _ _ _ H). split; reflexivity.
  - intros t g1 g2 H0 H. unfold station_item. cbn [st_line st_station].
    rewrite (search_line_station_nomatch _ _ H0), (search_line_station_first _ _ _ _ H).
    split; reflexivity.
  - intros t H1 H2. unfold station_item. cbn [st_line st_station].
    rewrite (search_line_station_nomatch _ _ H1), (search_line_station_nomatch _ _ H2).
    split; reflexivity.
  - intros t H1 H2. unfold station_item. simpl.
    rewrite (search_line_station_none _ _ H1), (search_line_station_none _ _ H2).
    split; reflexivity.
  - exact station_item_eki.
  - intros t d H. unfold station_item. cbn [st_walk]. exact (search_walk_first _ _ H).
  - intros t H. unfold station_item. cbn [st_walk]. exact (search_walk_nomatch _ H).
  - split; [vm_compute; reflexivity|]. split; [vm_compute; reflexivity|].
    split; [vm_compute; reflexivity|]. split; vm_compute; reflexivity.
Qed.

(** Counterexample to claim C9: the item [JR山手線/渋谷 徒歩5分] contains
    the ASCII separator, yet its line and station are null, because the
    part after the separator has no 駅. *)
Lemma station_item_separator_without_eki :
  ~ (forall t, (In 65295%N t \/ In 47%N t) -> st_line (station_item t) <> None).
Proof.
  intros H. apply (H (u "JR山手線/渋谷 徒歩5分")).
  - right. vm_compute. tauto.
  - vm_compute. reflexivity.
Qed.

(** * Further properties of the source *)

(** ** Search and identifier shape *)

Lemma search_some_first {A : Type} (f : ustr -> option A) s a :
  search f s = Some a ->
  exists p t, s = p ++ t /\ f t = Some a /\
    forall p1 p2, p = p1 ++ p2 -> p2 <> [] -> f (p2 ++ t) = None.
Proof.
  induction s as [|c s IH]; simpl; intros H.
  - destruct (f []) eqn:E; [|discriminate]. injection H as <-.
    exists [], []. split; [reflexivity|]. split; [exact E|].
    intros p1 p2 Hp Hne. destruct p1, p2; try discriminate; contradiction.
  - destruct (f (c :: s)) eqn:E.
    + injection H as <-. exists [], (c :: s). split; [reflexivity|]. split; [exact E|].
      intros p1 p2 Hp Hne. destruct p1, p2; try discriminate; contradiction.
    + destruct (IH H) as (p & t & -> & Ht & Hfirst).
      exists (c :: p), t. split; [reflexivity|]. split; [exact Ht|].
      intros p1 p2 Hp Hne. destruct p1 as [|x p1].
      * simpl in Hp. subst p2. exact E.
      * injection Hp as _ Hp. exact (Hfirst p1 p2 Hp Hne).
Qed.

Lemma numeric_rev cur : cur <> [] -> forallb is_decimal cur = true -> numeric (rev cur) = true.
Proof.
  intros Hne H. destruct (rev cur) as [|c r] eqn:E.
  - apply (f_equal (@rev N)) in E. rewrite rev_involutive in E. contradiction.
  - unfold numeric. rewrite <- E. apply forallb_forall. intros x Hx.
    apply in_rev in Hx. rewrite forallb_forall in H. exact (H x Hx).
Qed.

Lemma findall_digits_acc_numeric cur s :
  forallb is_decimal cur = true -> Forall (fun d => numeric d = true) (findall_digits_acc cur s).
Proof.
  revert cur. induction s as [|c s IH]; intros cur Hcur; simpl.
  - destruct cur as [|x cur]; [constructor|].
    constructor; [apply numeric_rev; [discriminate|exact Hcur]|constructor].
  - destruct (is_decimal c) eqn:Hc.
    + apply IH. simpl. rewrite Hc. exact Hcur.
    + destruct cur as [|x cur]; [apply IH; reflexivity|].
      constructor; [apply numeric_rev; [discriminate|exact Hcur]|apply IH; reflexivity].
Qed.

(** ** Record fields *)

Lemma parse_property_fields kk cap geo res url soup rec :
  parse_property kk cap geo res url soup = Some rec ->
  let info := get_side_info_map_simple soup in
  exists imgs,
    extract_images_basic res soup url 8 = Some imgs /\
    rec = build_record url (extract_property_csv_id url) (extract_postcode soup)
            (match py_or (dget (u "所在地") info) (extract_address_text_simple soup) with
             | Some ((_ :: _) as a) => split_japanese_address_simple a
             | _ => no_address
             end)
            (normalize_building_type_simple (dget (u "種別") info))
            (extract_year_simple (dget (u "築年月") info))
            (to_english_name_simple kk cap (extract_building_name_jp_simple soup))
            (extract_building_name_jp_simple soup)
            (fst (extract_map_coords_basic soup)) (snd (extract_map_coords_basic soup))
            (extract_stations_basic soup 5) imgs.
Proof.
  unfold parse_property. destruct (extract_images_basic res soup url 8) as [imgs|] eqn:E;
    [|discriminate].
  intros H; injection H as <-. exists imgs. split; reflexivity.
Qed.

Lemma build_record_base url csv pc addr bt yr ne nj lat lng sts imgs :
  let r := build_record url csv pc addr bt yr ne nj lat lng sts imgs in
  dget (u "link") r = Some (Some url) /\
  dget (u "property_csv_id") r = Some csv /\
  dget (u "postcode") r = Some pc /\
  dget (u "prefecture") r = Some (prefecture addr) /\
  dget (u "city") r = Some (city addr) /\
  dget (u "district") r = Some (district addr) /\
  dget (u "chome_banchi") r = Some (chome_banchi addr) /\
  dget (u "building_type") r = Some bt /\
  dget (u "year") r = Some yr /\
  dget (u "building_name_en") r = Some ne /\
  dget (u "building_name_ja") r = Some nj.
Proof. vm_compute. repeat split. Qed.

(** Every identifier [extract_property_csv_id] returns is a non-empty
    list of digit runs joined with [_]. *)
Theorem extract_property_csv_id_digit_runs url id :
  extract_property_csv_id url = Some id ->
  exists ds, ds <> [] /\ Forall (fun d => numeric d = true) ds /\ id = join (u "_") ds.
Proof.
  unfold extract_property_csv_id.
  destruct (search rent_at url) as [[g1 g2]|] eqn:E.
  - intros H. injection H as <-.
    destruct (search_some _ _ _ E) as (p & t & _ & Ht).
    apply rent_at_iff in Ht as (r & _ & N1 & N2 & _).
    exists [g1; g2]. split; [discriminate|]. split; [repeat constructor; assumption|].
    reflexivity.
  - destruct (findall_digits url) as [|d ds] eqn:F; [discriminate|].
    intros H. injection H as <-. exists (d :: ds). split; [discriminate|]. split; [|reflexivity].
    rewrite <- F. apply findall_digits_acc_numeric. reflexivity.
Qed.

Lemma extract_property_csv_id_digit_runs_witness :
  extract_property_csv_id demo_url = Some (u "8034884_117024") /\
  exists ds, ds <> [] /\ Forall (fun d => numeric d = true) ds /\
             u "8034884_117024" = join (u "_") ds.
Proof.
  split; [vm_compute; reflexivity|].
  apply (extract_property_csv_id_digit_runs demo_url). vm_compute. reflexivity.
Defined.

(** [extract_year_simple] returns the four digits of the leftmost
    occurrence of four decimal digits followed by 年 in the text. *)
Theorem extract_year_simple_leftmost t y :
  extract_year_simple t = Some y ->
  exists s p r, t = Some s /\ s = p ++ y ++ u "年" ++ r /\
    length y = 4%nat /\ forallb is_decimal y = true /\
    forall p1 p2, p = p1 ++ p2 -> p2 <> [] -> year_at (p2 ++ y ++ u "年" ++ r) = None.
Proof.
  unfold extract_year_simple. destruct t as [[|c s]|]; try discriminate. intros H.
  destruct (search_some_first _ _ _ H) as (p & t & Hs & Ht & Hfirst).
  unfold year_at in Ht.
  destruct t as [|a [|b [|c' [|d [|k r]]]]]; try discriminate.
  destruct (forallb is_decimal [a; b; c'; d] && mem k (u "年")) eqn:E; [|discriminate].
  injection Ht as <-. apply andb_prop in E as [Ed Ek].
  unfold mem in Ek. simpl in Ek. rewrite orb_false_r in Ek. apply N.eqb_eq in Ek. subst k.
  exists (c :: s), p, r. split; [reflexivity|]. split; [exact Hs|].
  split; [reflexivity|]. split; [exact Ed|]. exact Hfirst.
Qed.

Lemma extract_year_simple_leftmost_witness :
  extract_year_simple (Some (u "1998年築・2001年改装")) = Some (u "1998") /\
  exists s p r, Some (u "1998年築・2001年改装") = Some s /\ s = p ++ u "1998" ++ u "年" ++ r /\
    length (u "1998") = 4%nat /\ forallb is_decimal (u "1998") = true /\
    forall p1 p2, p = p1 ++ p2 -> p2 <> [] -> year_at (p2 ++ u "1998" ++ u "年" ++ r) = None.
Proof.
  split; [vm_compute; reflexivity|].
  apply extract_year_simple_leftmost. vm_compute. reflexivity.
Defined.

(** ** Postal code *)

Lemma search_prev_shape prev s m :
  search_prev postcode_at prev s = Some m -> postcode_shape m.
Proof.
  revert prev. induction s as [|c s IH]; intros prev; simpl.
  - unfold postcode_at. simpl. destruct prev as [x|]; [destruct (is_word x)|]; discriminate.
  - destruct (postcode_at prev (c :: s)) as [m0|] eqn:E; [|apply IH].
    intros H. injection H as <-. unfold postcode_at in E.
    destruct (match prev with Some p => is_word p | None => false end); [discriminate|].
    destruct (postcode_prefix (c :: s)) as [[m1 r]|] eqn:P; [|discriminate].
    assert (m1 = m0) as <- by (destruct r as [|x r];
      [|destruct (is_word x)]; congruence).
    unfold postcode_prefix in P.
    destruct s as [|b[|c'[|h[|d[|e[|f[|g r']]]]]]]; try discriminate.
    destruct (forallb is_decimal [c; b; c'; d; e; f; g] && N.eqb h 45) eqn:Q; [|discriminate].
    injection P as <- _. apply andb_prop in Q as [Q Qh]. apply N.eqb_eq in Qh. subst h.
    exists c, b, c', d, e, f, g. split; [reflexivity|exact Q].
Qed.

(** [extract_postcode] returns a postal code whenever the whole page text
    (strings joined with spaces) contains [\b\d{3}-\d{4}\b]: a candidate
    element can only change which code is returned; every result has the
    form [ddd-dddd]. *)
Theorem extract_postcode_page soup :
  (search_prev postcode_at None (get_text (u " ") true soup) <> None ->
     extract_postcode soup <> None) /\
  (forall m, extract_postcode soup = Some m -> postcode_shape m).
Proof.
  unfold extract_postcode. generalize address_candidates as sels. intros sels. split.
  - intros Hp. induction sels as [|sel sels IH]; [exact Hp|].
    cbn -[search_prev get_text select_one u].
    destruct (select_one sel soup) as [el|]; [|exact IH].
    destruct (search_prev postcode_at None (get_text (u " ") true el)) as [m|];
      [discriminate|cbv beta iota; exact IH].
  - induction sels as [|sel sels IH]; [apply search_prev_shape|].
    cbn -[search_prev get_text select_one u].
    destruct (select_one sel soup) as [el|]; [|exact IH].
    destruct (search_prev postcode_at None (get_text (u " ") true el)) as [m0|] eqn:Em;
      [|cbv beta iota; exact IH].
    intros m H. injection H as <-. exact (search_prev_shape _ _ _ Em).
Qed.

(** ** Whitespace at the edges *)

Lemma lstrip_edge s : match lstrip s with [] => True | c :: _ => is_space c = false end.
Proof.
  induction s as [|c s IH]; simpl; [exact I|]. destruct (is_space c) eqn:E; [exact IH|exact E].
Qed.

Lemma rstrip_split_spaces s : exists w, forallb is_space w = true /\ s = rstrip s ++ w.
Proof.
  destruct (lstrip_split (rev s)) as (w & E & Hw). exists (rev w). split.
  - rewrite forallb_forall in *. intros x Hx. apply Hw. apply in_rev. exact Hx.
  - unfold rstrip. rewrite <- rev_app_distr, <- E, rev_involutive. reflexivity.
Qed.

Lemma strip_split_spaces s :
  exists a b, forallb is_space a = true /\ forallb is_space b = true /\ s = a ++ strip s ++ b.
Proof.
  destruct (lstrip_split s) as (a & Ea & Ha).
  destruct (rstrip_split_spaces (lstrip s)) as (b & Hb & Eb).
  exists a, b. split; [exact Ha|]. split; [exact Hb|]. unfold strip. rewrite <- Eb. exact Ea.
Qed.

Lemma last_app_ne (x y : ustr) d : y <> [] -> last (x ++ y) d = last y d.
Proof.
  intros Hy. induction x as [|a x IH]; simpl; [reflexivity|].
  destruct (x ++ y) eqn:E; [destruct x, y; try discriminate; contradiction|]. exact IH.
Qed.

Lemma last_rev_head (c : N) (r : ustr) d : last (rev (c :: r)) d = c.
Proof. simpl. apply last_last. Qed.

Lemma edges_ok_strip_fixed s : edges_ok s -> strip s = s.
Proof.
  destruct s as [|c r]; [reflexivity|]. intros [Hc Hl].
  unfold strip. simpl lstrip. rewrite Hc. unfold rstrip.
  destruct (rev (c :: r)) as [|x l] eqn:E.
  - apply (f_equal (@rev N)) in E. rewrite rev_involutive in E. discriminate.
  - assert (Hx : x = last (c :: r) 0%N).
    { rewrite <- (rev_involutive (c :: r)), E. simpl. symmetry. apply last_last. }
    assert (Hsx : is_space x = false) by (rewrite Hx; exact Hl).
    simpl lstrip. rewrite Hsx, <- E, rev_involutive. reflexivity.
Qed.

Lemma edges_ok_strip s : edges_ok (strip s).
Proof.
  unfold strip, rstrip.
  destruct (rstrip_split_spaces (lstrip s)) as (w & _ & Ew). unfold rstrip in Ew.
  assert (Hl := lstrip_edge s). assert (Hr := lstrip_edge (rev (lstrip s))).
  destruct (lstrip (rev (lstrip s))) as [|x l] eqn:E; [exact I|].
  destruct (rev (x :: l)) as [|c r] eqn:Er; [exact I|]. split.
  - rewrite Ew in Hl. simpl in Hl. exact Hl.
  - rewrite <- Er, last_rev_head. exact Hr.
Qed.

Lemma edges_ok_join sep ps :
  Forall (fun p => p <> [] /\ edges_ok p) ps -> edges_ok (join sep ps).
Proof.
  induction 1 as [|p ps [Hne Hp] Hps IH]; [exact I|].
  destruct ps as [|q ps]; [exact Hp|].
  change (join sep (p :: q :: ps)) with (p ++ sep ++ join sep (q :: ps)).
  inversion Hps as [|? ? [Hq _] _]; subst.
  assert (Hj : join sep (q :: ps) <> []).
  { destruct ps; simpl; [exact Hq|]. destruct q; [contradiction|discriminate]. }
  destruct p as [|c p]; [contradiction|]. destruct Hp as [Hc _].
  set (J := join sep (q :: ps)) in *. clearbody J.
  unfold edges_ok. cbn [app]. split; [exact Hc|].
  replace (c :: p ++ sep ++ J) with ((c :: p ++ sep) ++ J)
    by (cbn [app]; rewrite <- app_assoc; reflexivity).
  rewrite last_app_ne by exact Hj.
  destruct J as [|y l]; [contradiction|]. exact (proj2 IH).
Qed.

Lemma text_pieces_edges n :
  Forall (fun p => p <> [] /\ edges_ok p) (text_pieces true n).
Proof.
  unfold text_pieces. apply Forall_forall. intros p Hp.
  apply in_flat_map in Hp as (d & _ & Hd).
  destruct d as [k s|]; [|destruct Hd].
  destruct (interesting n k); [|destruct Hd].
  destruct (strip s) as [|c r] eqn:E; [destruct Hd|].
  destruct Hd as [<-|[]]. split; [discriminate|]. rewrite <- E. apply edges_ok_strip.
Qed.

Lemma get_text_stripped sep n : strip (get_text sep true n) = get_text sep true n.
Proof. apply edges_ok_strip_fixed, edges_ok_join, text_pieces_edges. Qed.

Lemma strip_idem s : strip (strip s) = strip s.
Proof. apply edges_ok_strip_fixed, edges_ok_strip. Qed.

(** ** Side-information map and building name *)

Lemma dset_keys_in {V : Type} k v (d : list (ustr * V)) x :
  In x (map fst (dset k v d)) <-> x = k \/ In x (map fst d).
Proof.
  induction d as [|[k' v'] d IH]; simpl; [intuition congruence|].
  destruct (ueqb k k') eqn:E; simpl.
  - apply ueqb_eq in E. subst k'. intuition congruence.
  - rewrite IH. intuition congruence.
Qed.

Lemma dset_nodup {V : Type} k v (d : list (ustr * V)) :
  NoDup (map fst d) -> NoDup (map fst (dset k v d)).
Proof.
  induction d as [|[k' v'] d IH]; simpl; intros H; [constructor; [intros []|constructor]|].
  inversion H as [|? ? Hn Hd]; subst.
  destruct (ueqb k k') eqn:E; simpl; constructor; auto.
  rewrite dset_keys_in. intros [Heq|Hin]; [|contradiction].
  subst. rewrite (proj2 (ueqb_eq _ _) eq_refl) in E. discriminate.
Qed.

Lemma dset_forall {V : Type} (P : ustr * V -> Prop) k v d :
  Forall P d -> P (k, v) -> Forall P (dset k v d).
Proof.
  induction 1 as [|[k' v'] d Hp Hd IH]; intros Hkv; simpl; [repeat constructor; exact Hkv|].
  destruct (ueqb k k') eqn:E.
  - apply ueqb_eq in E. subst k'. constructor; assumption.
  - constructor; [exact Hp|exact (IH Hkv)].
Qed.

Lemma dget_forall {V : Type} (P : ustr * V -> Prop) k d v :
  Forall P d -> dget k d = Some v -> exists k', P (k', v).
Proof.
  induction 1 as [|[k' v'] d Hp Hd IH]; simpl; [discriminate|].
  destruct (ueqb k k'); [intros H; injection H as <-; eauto|exact IH].
Qed.

Lemma side_info_loop_ok cur els out :
  match cur with Some c => strip c = c | None => True end ->
  NoDup (map fst out) -> Forall side_entry_ok out ->
  NoDup (map fst (side_info_loop cur els out)) /\ Forall side_entry_ok (side_info_loop cur els out).
Proof.
  revert cur out. induction els as [|el els IH]; intros cur out Hc Hn Hf; simpl; [auto|].
  destruct (is_tag (u "dt") el).
  - apply IH; [apply get_text_stripped|exact Hn|exact Hf].
  - destruct (is_tag (u "dd") el); [|apply IH; assumption].
    destruct cur as [[|x c]|]; try (apply IH; assumption).
    apply IH; [exact I|apply dset_nodup; exact Hn|].
    apply dset_forall; [exact Hf|]. split; [discriminate|]. split; [exact Hc|].
    apply get_text_stripped.
Qed.

(** The side-information map has distinct, non-empty labels, and neither
    labels nor values carry whitespace at their ends. *)
Theorem get_side_info_map_entries soup :
  NoDup (map fst (get_side_info_map_simple soup)) /\
  Forall side_entry_ok (get_side_info_map_simple soup).
Proof.
  unfold get_side_info_map_simple.
  destruct (select_one _ soup) as [dl|]; [|split; constructor].
  apply side_info_loop_ok; [exact I|constructor|constructor].
Qed.

Lemma py_or_some a b x : py_or a b = Some x -> a = Some x \/ b = Some x.
Proof. unfold py_or. destruct a as [[|? ?]|]; auto. Qed.

Lemma building_name_ok soup n :
  extract_building_name_jp_simple soup = Some n -> n <> [] /\ strip n = n.
Proof.
  unfold extract_building_name_jp_simple.
  destruct (get_side_info_map_entries soup) as [_ Hf].
  set (info := get_side_info_map_simple soup) in *.
  destruct (py_or _ _) as [[|x name]|] eqn:E.
  - destruct (select_one (STag (u "h1")) soup) as [e|] eqn:E1;
    [|destruct (select_one (STag (u "h2")) soup) as [e|] eqn:E2;
      [|destruct (select_one (SClass (u "rent_view_ttl")) soup) as [e|] eqn:E3]];
    try (destruct (get_text (u " ") true e) as [|c t] eqn:Et;
         [|intros H; injection H as <-; split; [discriminate|rewrite <- Et; apply get_text_stripped]]);
    (destruct (select_one (STag (u "title")) soup) as [ttl|]; [|discriminate]);
    (destruct (strip _) as [|c t] eqn:Es; [discriminate|]);
    intros H; injection H as <-; split; try discriminate; rewrite <- Es; apply strip_idem.
  - intros H. injection H as <-.
    assert (Hs : strip (x :: name) = x :: name).
    { apply py_or_some in E as [E|E]; [|apply py_or_some in E as [E|E]];
      destruct (dget_forall _ _ _ _ Hf E) as (k & _ & _ & Hv); exact Hv. }
    rewrite Hs. split; [discriminate|exact Hs].
  - destruct (select_one (STag (u "h1")) soup) as [e|] eqn:E1;
    [|destruct (select_one (STag (u "h2")) soup) as [e|] eqn:E2;
      [|destruct (select_one (SClass (u "rent_view_ttl")) soup) as [e|] eqn:E3]];
    try (destruct (get_text (u " ") true e) as [|c t] eqn:Et;
         [|intros H; injection H as <-; split; [discriminate|rewrite <- Et; apply get_text_stripped]]);
    (destruct (select_one (STag (u "title")) soup) as [ttl|]; [|discriminate]);
    (destruct (strip _) as [|c t] eqn:Es; [discriminate|]);
    intros H; injection H as <-; split; try discriminate; rewrite <- Es; apply strip_idem.
Qed.

(** [extract_building_name_jp_simple] never returns an empty name, and
    the name it returns has no whitespace at either end. *)
Theorem extract_building_name_trimmed soup n :
  extract_building_name_jp_simple soup = Some n -> n <> [] /\ strip n = n.
Proof. exact (building_name_ok soup n). Qed.

Lemma extract_building_name_trimmed_witness :
  extract_building_name_jp_simple doc_demo = Some (u "パークタワー") /\
  u "パークタワー" <> [] /\ strip (u "パークタワー") = u "パークタワー".
Proof.
  assert (H : extract_building_name_jp_simple doc_demo = Some (u "パークタワー"))
    by (vm_compute; reflexivity).
  split; [exact H|]. exact (extract_building_name_trimmed doc_demo _ H).
Defined.

(** ** Station items *)

Lemma walk_at_digits s w : walk_at s = Some w -> w <> [] /\ forallb is_decimal w = true.
Proof.
  unfold walk_at. destruct (strip_prefix (u "徒歩") s) as [r|]; [|discriminate].
  destruct (span_digits (lstrip r)) as [d r2] eqn:E.
  destruct (span_digits_spec _ _ _ E) as (_ & Hd & _).
  destruct d as [|c d]; [discriminate|].
  destruct (lstrip r2) as [|x l]; [discriminate|].
  destruct (mem x (u "分")); [|discriminate]. intros H. injection H as <-.
  split; [discriminate|exact Hd].
Qed.

(** In every station item the walk minutes, when present, are a
    non-empty run of decimal digits ([\d], so full-width digits too), and
    line and station carry no whitespace at their ends, the station being
    non-empty. *)
Theorem station_item_fields t :
  (forall w, st_walk (station_item t) = Some w -> w <> [] /\ forallb is_decimal w = true) /\
  (forall l, st_line (station_item t) = Some l -> strip l = l) /\
  (forall s, st_station (station_item t) = Some s -> s <> [] /\ strip s = s) /\
  st_walk (station_item (u "渋谷駅まで徒歩７分")) = Some (u "７").
Proof.
  split; [|split; [|split]].
  - intros w H. destruct (search_some _ _ _ H) as (p & q & _ & Hq). exact (walk_at_digits _ _ Hq).
  - unfold station_item. simpl. intros l.
    destruct (match search (line_station_at 65295%N) t with
              | Some p => Some p | None => search (line_station_at 47%N) t end) as [p|];
      [|discriminate].
    intros H. injection H as <-. apply strip_idem.
  - intros s H. split.
    + destruct (station_item_eki _ _ H) as [q ->]. destruct q; discriminate.
    + revert H. unfold station_item. simpl.
      destruct (match search (line_station_at 65295%N) t with
                | Some p => Some p | None => search (line_station_at 47%N) t end) as [p|];
        [|discriminate].
      intros H. injection H as <-. apply strip_idem.
  - vm_compute. reflexivity.
Qed.

(** ** Images *)

Lemma existsb_ueqb_false x l : existsb (ueqb x) l = false -> ~ In x l.
Proof.
  intros H Hin. assert (existsb (ueqb x) l = true) as Ht.
  { apply existsb_exists. exists x. split; [exact Hin|]. apply ueqb_eq. reflexivity. }
  congruence.
Qed.

Lemma images_loop_nodup res base limit imgs urls r :
  NoDup urls -> images_loop res base limit imgs urls = Some r -> NoDup r.
Proof.
  revert urls. induction imgs as [|img imgs IH]; intros urls Hn H; simpl in H.
  - injection H as <-. exact Hn.
  - destruct (img_src img) as [[|c s]|]; [eapply IH; eauto| |eapply IH; eauto].
    destruct (startswith (c :: s) (u "data:")); [eapply IH; eauto|].
    destruct (urljoin res base (c :: s)) as [abs_url|]; [|discriminate].
    assert (Hn' : NoDup (if existsb (ueqb abs_url) urls then urls else urls ++ [abs_url])).
    { destruct (existsb (ueqb abs_url) urls) eqn:E; [exact Hn|].
      apply NoDup_app; [exact Hn|repeat constructor; intros []|].
      intros x Hx [<-|[]]. exact (existsb_ueqb_false _ _ E Hx). }
    destruct (Nat.leb limit _); [injection H as <-; exact Hn'|eapply IH; eauto].
Qed.

Lemma images_loop_skipped res base limit imgs urls :
  forallb img_skipped imgs = true -> images_loop res base limit imgs urls = Some urls.
Proof.
  induction imgs as [|img imgs IH]; simpl; [reflexivity|].
  intros H. apply andb_prop in H as [Hi Hr]. unfold img_skipped in Hi.
  destruct (img_src img) as [[|c s]|]; [apply IH; exact Hr| |apply IH; exact Hr].
  rewrite Hi. apply IH. exact Hr.
Qed.

(** [extract_images_basic] never lists the same URL twice; a page whose
    [img] elements all lack a usable source or use a [data:] source gives
    the empty list, without resolving any URL (so without raising). *)
Theorem extract_images_basic_distinct res soup base limit :
  (forall urls, extract_images_basic res soup base limit = Some urls -> NoDup urls) /\
  (forallb img_skipped (select (STag (u "img")) soup) = true ->
     extract_images_basic res soup base limit = Some []).
Proof.
  split.
  - intros urls. apply images_loop_nodup. constructor.
  - apply images_loop_skipped.
Qed.

(** ** Address segmentation keeps the text *)

(** [split_japanese_address_simple] drops nothing but an optional leading
    [ddd-dddd] postal code and whitespace: the address is that code (with
    whitespace around it) followed by prefecture, city and remainder
    separated only by whitespace. *)
Theorem split_japanese_address_lossless a :
  (strip_leading_postcode a = a \/
   exists w pc w', forallb is_space w = true /\ postcode_shape pc /\ forallb is_space w' = true /\
     a = w ++ pc ++ w' ++ strip_leading_postcode a) /\
  exists w1 w2 w3, forallb is_space (w1 ++ w2 ++ w3) = true /\
    strip_leading_postcode a =
      ostr (prefecture (split_japanese_address_simple a)) ++ w1 ++
      ostr (city (split_japanese_address_simple a)) ++ w2 ++
      ostr (chome_banchi (split_japanese_address_simple a)) ++ w3.
Proof.
  split; [apply strip_leading_postcode_cases|].
  assert (Hrest : forall x : ustr, ostr (match x with [] => None | _ => Some x end) = x)
    by (intros [|? ?]; reflexivity).
  unfold split_japanese_address_simple. set (addr := strip_leading_postcode a). clearbody addr.
  destruct (lazy_suffix is_pref_suffix addr) as [[m r]|] eqn:Ep.
  - destruct (lazy_suffix_some _ _ _ _ Ep) as [Ea _].
    destruct (strip_split_spaces r) as (a1 & b1 & Ha1 & Hb1 & Er).
    set (sr := strip r) in *. clearbody sr.
    destruct (lazy_suffix is_city_suffix sr) as [[m2 r2]|] eqn:Ec; cbn [prefecture city chome_banchi].
    + destruct (lazy_suffix_some _ _ _ _ Ec) as [Ec' _].
      destruct (strip_split_spaces r2) as (a2 & b2 & Ha2 & Hb2 & Er2).
      set (sr2 := strip r2) in *. clearbody sr2.
      exists a1, a2, (b2 ++ b1). rewrite Hrest. split.
      * rewrite !forallb_app, Ha1, Ha2, Hb2, Hb1. reflexivity.
      * rewrite Ea, Er, Ec', Er2. rewrite <- !app_assoc. reflexivity.
    + exists a1, [], b1. rewrite Hrest. split.
      * rewrite !forallb_app, Ha1, Hb1. reflexivity.
      * rewrite Ea, Er. reflexivity.
  - destruct (lazy_suffix is_city_suffix addr) as [[m2 r2]|] eqn:Ec; cbn [prefecture city chome_banchi].
    + destruct (lazy_suffix_some _ _ _ _ Ec) as [Ec' _].
      destruct (strip_split_spaces r2) as (a2 & b2 & Ha2 & Hb2 & Er2).
      set (sr2 := strip r2) in *. clearbody sr2.
      exists [], a2, b2. rewrite Hrest. split.
      * simpl. rewrite forallb_app, Ha2, Hb2. reflexivity.
      * rewrite Ec', Er2. reflexivity.
    + exists [], [], []. rewrite Hrest. split; [reflexivity|]. rewrite !app_nil_r. reflexivity.
Qed.

(** ** Whole records *)

(** In a record, the English building name is null exactly when the
    Japanese one is; a Japanese name containing a Latin letter, or any
    name when the converter is unavailable, is copied unchanged. *)
Theorem parse_property_names kk cap geo res url soup rec :
  parse_property kk cap geo res url soup = Some rec ->
  exists nj, dget (u "building_name_ja") rec = Some nj /\
    (nj = None -> dget (u "building_name_en") rec = Some None) /\
    (forall n, nj = Some n ->
       (exists e, dget (u "building_name_en") rec = Some (Some e)) /\
       (existsb is_ascii_alpha n = true \/ kk = None ->
          dget (u "building_name_en") rec = Some (Some n))).
Proof.
  intros H. destruct (parse_property_fields _ _ _ _ _ _ _ H) as (imgs & _ & ->).
  match goal with |- context [build_record ?a ?b ?c ?d ?e ?f ?g ?h ?i ?j ?k ?l] =>
    destruct (build_record_base a b c d e f g h i j k l)
      as (_ & _ & _ & _ & _ & _ & _ & _ & _ & Hen & Hja)
  end.
  eexists. split; [exact Hja|]. rewrite Hen. split.
  - intros ->. reflexivity.
  - intros n En. destruct (building_name_ok soup n En) as [Hne Hs].
    rewrite En. destruct n as [|c n]; [contradiction|].
    unfold to_english_name_simple. rewrite Hs. split.
    + destruct (existsb is_ascii_alpha (c :: n)); [eauto|].
      destruct kk; eauto.
    + intros [Ha| ->]; [rewrite Ha; reflexivity|].
      destruct (existsb is_ascii_alpha (c :: n)); reflexivity.
Qed.

Lemma parse_property_names_witness :
  parse_property None (fun x => x) demo_geo demo_resolve demo_url doc_demo = Some demo_record /\
  dget (u "building_name_ja") demo_record = Some (Some (u "パークタワー")) /\
  dget (u "building_name_en") demo_record = Some (Some (u "パークタワー")).
Proof.
  assert (H : parse_property None (fun x => x) demo_geo demo_resolve demo_url doc_demo
              = Some demo_record) by (vm_compute; reflexivity).
  destruct (parse_property_names _ _ _ _ _ _ _ H) as (nj & Hja & _ & Hsome).
  assert (Hj : dget (u "building_name_ja") demo_record = Some (Some (u "パークタワー")))
    by (vm_compute; reflexivity).
  rewrite Hja in Hj. injection Hj as Hj.
  split; [exact H|]. split; [rewrite Hja, Hj; reflexivity|].
  exact (proj2 (Hsome _ Hj) (or_intror eq_refl)).
Defined.
